(** * HORA mascot generator: a shallow embedding of [generate_mascot.py]

    The script draws a fixed composition with Pillow's [ImageDraw] on one RGBA
    canvas and saves it twice.  The embedding keeps the script's structure:

    - [Py]      the Python number semantics the script relies on (ints, IEEE
                binary64 floats, [int()], [min], indexing, [range]);
    - [Pillow]  the library calls the script makes: images as pixel
                functions, inks, [Image.new], [Image.alpha_composite],
                [convert('RGB')], [Image.save], and the ImageDraw calls as a
                display list applied by a rasteriser;
    - the script itself, layer by layer, in a small state-and-error monad over
      the global random generator and the list of ImageDraw calls.

    What the libraries leave open (the rasteriser, the generator behind
    [random], the C functions [cos], [sin] and [pow], the file system the
    two files are written to) enters as type class parameters. *)

From Stdlib Require Import String ZArith List Bool Floats Lia Reals Lra.
Import ListNotations.
Local Open Scope Z_scope.

(* ================================================================== *)
(** * Python numbers *)
(* ================================================================== *)

Module Py.

(** A Python number is an [int] (unbounded) or a [float] (binary64). *)
Inductive num : Type :=
| I (z : Z)
| F (f : float).

(** [float(z)]: round to nearest even.  Every integer of the script is far
    below 2^53, where the conversion is exact; integers beyond the binary64
    range, on which Python raises OverflowError, come out infinite here. *)
Definition float_of_Z (z : Z) : float :=
  SF2Prim (binary_normalize prec emax z 0 false).

Definition to_float (x : num) : float :=
  match x with
  | I z => float_of_Z z
  | F f => f
  end.

(** [int(f)] truncates toward zero; it raises on NaN (ValueError) and on
    infinities (OverflowError). *)
Definition int_of_float (f : float) : option Z :=
  match Prim2SF f with
  | S754_zero _ => Some 0
  | S754_finite s m e =>
      let v := Z.shiftl (Zpos m) e in
      Some (if s then - v else v)
  | S754_infinity _ => None
  | S754_nan => None
  end.

Definition int (x : num) : option Z :=
  match x with
  | I z => Some z
  | F f => int_of_float f
  end.

(** Binary arithmetic: int with int stays exact, anything else is computed
    in binary64 after converting the int operand. *)
Definition add (x y : num) : num :=
  match x, y with
  | I a, I b => I (a + b)
  | _, _ => F (PrimFloat.add (to_float x) (to_float y))
  end.

Definition sub (x y : num) : num :=
  match x, y with
  | I a, I b => I (a - b)
  | _, _ => F (PrimFloat.sub (to_float x) (to_float y))
  end.

Definition mul (x y : num) : num :=
  match x, y with
  | I a, I b => I (a * b)
  | _, _ => F (PrimFloat.mul (to_float x) (to_float y))
  end.

Definition is_zero (x : num) : bool :=
  match x with
  | I z => z =? 0
  | F f => PrimFloat.eqb f PrimFloat.zero
  end.

(** [x / y]: true division, always a float, computed on the converted
    operands (which is what CPython does for ints below 2^53);
    ZeroDivisionError on a zero divisor. *)
Definition truediv (x y : num) : option num :=
  if is_zero y then None
  else Some (F (PrimFloat.div (to_float x) (to_float y))).

(** [x < y].  An int is compared with a float through its conversion,
    which is exact for the magnitudes of the script. *)
Definition lt (x y : num) : bool :=
  match x, y with
  | I a, I b => a <? b
  | _, _ => PrimFloat.ltb (to_float x) (to_float y)
  end.

(** [min(x, y)] keeps the first argument unless the second is strictly
    smaller. *)
Definition min (x y : num) : num := if lt y x then y else x.

(** The wrapper of the [math] module around a C function of one argument:
    ValueError when the result is NaN and the argument is not, or when the
    result is infinite and the argument finite. *)
Definition math_1 (f : float -> float) (x : num) : option float :=
  let a := to_float x in
  let r := f a in
  if PrimFloat.is_nan r && negb (PrimFloat.is_nan a) then None
  else if PrimFloat.is_infinity r && PrimFloat.is_finite a then None
  else Some r.

(** [math.sqrt(x)]: the binary64 square root, which is correctly rounded. *)
Definition math_sqrt (x : num) : option float := math_1 PrimFloat.sqrt x.

(** [l[i]] with Python's negative indices; IndexError out of range. *)
Definition index {A : Type} (l : list A) (i : Z) : option A :=
  let n := Z.of_nat (length l) in
  if (0 <=? i) && (i <? n) then nth_error l (Z.to_nat i)
  else if (- n <=? i) && (i <? 0) then nth_error l (Z.to_nat (n + i))
  else None.

(** [range(start, stop, step)]; ValueError when [step] is zero. *)
Definition range (start stop step : Z) : option (list Z) :=
  if step =? 0 then None
  else
    let n :=
      if 0 <? step
      then (if start <? stop then (stop - start - 1) / step + 1 else 0)
      else (if stop <? start then (start - stop - 1) / (- step) + 1 else 0) in
    Some (map (fun k => start + Z.of_nat k * step) (seq 0 (Z.to_nat n))).

(** [enumerate(l)]. *)
Definition enumerate {A : Type} (l : list A) : list (Z * A) :=
  combine (map Z.of_nat (seq 0 (length l))) l.

(** [s.replace(old, new)]: every occurrence of [old], found from the left
    and without overlap, becomes [new]; an empty [old] matches before every
    character and at the end.  [skip] counts the characters of a match that
    are still to be passed over. *)
Fixpoint replace_from (old new : string) (skip : nat) (s : string) : string :=
  match s with
  | EmptyString => EmptyString
  | String c s' =>
      match skip with
      | S k => replace_from old new k s'
      | O =>
          if prefix old s
          then append new (replace_from old new (String.length old - 1) s')
          else String c (replace_from old new 0 s')
      end
  end.

Fixpoint interleave (new s : string) : string :=
  match s with
  | EmptyString => EmptyString
  | String c s' => String c (append new (interleave new s'))
  end.

Definition str_replace (s old new : string) : string :=
  match old with
  | EmptyString => append new (interleave new s)
  | _ => replace_from old new 0 s
  end.

End Py.

(** [math.pi]. *)
Definition math_pi : float := 0x1.921fb54442d18p+1%float.

(** The C library functions Python delegates to and that IEEE 754 does not
    pin down bit for bit: [cos], [sin], and the [pow] behind [**] on floats.
    The square root and the four operations are correctly rounded and are
    taken from the binary64 primitives instead. *)
Class Libm : Type := {
  libm_cos : float -> float;
  libm_sin : float -> float;
  libm_pow : float -> float -> float
}.

Definition math_cos `{Libm} (x : Py.num) : option float := Py.math_1 libm_cos x.
Definition math_sin `{Libm} (x : Py.num) : option float := Py.math_1 libm_sin x.

(** [x ** n] for a float [x] and an int [n]: C [pow]; a finite base whose
    power leaves the finite range raises OverflowError. *)
Definition float_pow `{Libm} (x : float) (n : Z) : option float :=
  let r := libm_pow x (Py.float_of_Z n) in
  if PrimFloat.is_finite x && negb (PrimFloat.is_finite r) then None
  else Some r.

(** The module-level generator of [random], as the script uses it.
    [random.seed(n)] replaces the whole generator state by one computed from
    [n] alone; the three sampling calls read and advance the state.
    [random.choice] raises on an empty sequence and [random.randint] on an
    empty range. *)
Class Random (G : Type) : Type := {
  rng_seed : Z -> G;
  rng_uniform : Py.num -> Py.num -> G -> float * G;
  rng_choice : list Z -> G -> option (Z * G);
  rng_randint : Z -> Z -> G -> option (Z * G)
}.

(** [random.random()] returns a multiple of 2^-53 in [0.0, 1.0); this is
    the largest one. *)
Definition random_max : float := 0x1.fffffffffffffp-1%float.

(** [random.uniform(a, b)] is [a + (b - a) * random()]: its value when
    [random()] returns [r]. *)
Definition uniform_at (a b : Py.num) (r : float) : float :=
  Py.to_float (Py.add a (Py.mul (Py.sub b a) (Py.F r))).

(* ================================================================== *)
(** * Pillow *)
(* ================================================================== *)

Module Pillow.

(** One pixel of an RGBA image: four 8-bit bands. *)
Record rgba : Type := mk_rgba { red : Z; green : Z; blue : Z; alpha : Z }.

(** One pixel of an RGB image: three 8-bit bands, no alpha band. *)
Record rgb : Type := mk_rgb { rgb_red : Z; rgb_green : Z; rgb_blue : Z }.

(** An image of a given pixel type: its size and its raster. *)
Record image (P : Type) : Type := mk_image {
  im_width : Z;
  im_height : Z;
  im_px : Z -> Z -> P
}.
Arguments mk_image {P} _ _ _.
Arguments im_width {P} _.
Arguments im_height {P} _.
Arguments im_px {P} _ _ _.

Definition im_size {P : Type} (im : image P) : Z * Z :=
  (im_width im, im_height im).

(** Band values of an ink are clipped to 0..255. *)
Definition clip8 (v : Z) : Z :=
  if v <=? 0 then 0 else if v <? 256 then v else 255.

(** The ink of a colour tuple on an RGBA image: one, three or four
    elements, anything else is refused. *)
Definition draw_ink (c : list Z) : option rgba :=
  match c with
  | [l] => Some (mk_rgba (clip8 l) (clip8 l) (clip8 l) 255)
  | [r; g; b] => Some (mk_rgba (clip8 r) (clip8 g) (clip8 b) 255)
  | [r; g; b; a] => Some (mk_rgba (clip8 r) (clip8 g) (clip8 b) (clip8 a))
  | _ => None
  end.

(** [Image.new('RGBA', (w, h), color)]. *)
Definition Image_new (w h : Z) (color : list Z) : option (image rgba) :=
  if (w <? 0) || (h <? 0) then None
  else
    match draw_ink color with
    | Some ink => Some (mk_image w h (fun _ _ => ink))
    | None => None
    end.

(** The calls made on the [ImageDraw] object. *)
Inductive draw_op : Type :=
| Ellipse (xy : list Z) (fill outline : option (list Z)) (width : Z)
| Polygon (pts : list (Z * Z)) (fill : list Z)
| Line (pts : list (Z * Z)) (fill : list Z) (width : Z).

(** Which pixels a shape covers is the business of the drawing library's
    rasteriser; a fixed library version is a fixed instance.  An ellipse is
    given by its bounding box, whether it is filled, and the width of its
    outline when it is not. *)
Class Rasterizer : Type := {
  ellipse_cover : list Z -> bool -> Z -> Z -> Z -> bool;
  polygon_cover : list (Z * Z) -> Z -> Z -> bool;
  line_cover : list (Z * Z) -> Z -> Z -> Z -> bool
}.

(** On an RGBA canvas ImageDraw stores the ink in every covered pixel. *)
Definition paint (cover : Z -> Z -> bool) (ink : rgba) (im : image rgba)
  : image rgba :=
  mk_image (im_width im) (im_height im)
           (fun x y => if cover x y then ink else im_px im x y).

Definition paint_opt (cover : Z -> Z -> bool) (ink : option rgba)
    (im : image rgba) : image rgba :=
  match ink with
  | Some i => paint cover i im
  | None => im
  end.

Definition rgba_eqb (p q : rgba) : bool :=
  (red p =? red q) && (green p =? green q)
  && (blue p =? blue q) && (alpha p =? alpha q).

Definition ink_eqb (i j : option rgba) : bool :=
  match i, j with
  | Some p, Some q => rgba_eqb p q
  | None, None => true
  | _, _ => false
  end.

(** The default ink of a fresh [ImageDraw] on an RGBA image. *)
Definition default_ink : rgba := mk_rgba 255 255 255 255.

(** The inks of an outline and a fill colour: with neither given the
    outline takes the default ink; a colour that is given must be valid. *)
Definition getink (outline fill : option (list Z))
  : option (option rgba * option rgba) :=
  match outline, fill with
  | None, None => Some (Some default_ink, None)
  | _, _ =>
      match match outline with
            | Some c => option_map Some (draw_ink c)
            | None => Some None
            end,
            match fill with
            | Some c => option_map Some (draw_ink c)
            | None => Some None
            end with
      | Some ink, Some fill_ink => Some (ink, fill_ink)
      | _, _ => None
      end
  end.

(** Every ImageDraw call turns the colours it is given into inks before it
    draws anything, and raises when one is refused. *)
Definition accepts_inks (op : draw_op) : bool :=
  match op with
  | Ellipse _ fill outline _ =>
      match getink outline fill with
      | Some _ => true
      | None => false
      end
  | Polygon _ fill | Line _ fill _ =>
      match draw_ink fill with
      | Some _ => true
      | None => false
      end
  end.

(** One ImageDraw call.  [ellipse] fills first and then strokes the outline
    when its ink differs from the fill's and its width is not zero;
    [polygon] fills; [line] strokes. *)
Definition render_op `{Rasterizer} (op : draw_op) (im : image rgba)
  : option (image rgba) :=
  match op with
  | Ellipse xy fill outline width =>
      match getink outline fill with
      | Some (ink, fill_ink) =>
          let im1 := paint_opt (ellipse_cover xy true 0) fill_ink im in
          if ink_eqb ink fill_ink || (width =? 0) then Some im1
          else Some (paint_opt (ellipse_cover xy false width) ink im1)
      | None => None
      end
  | Polygon pts fill =>
      match draw_ink fill with
      | Some ink => Some (paint (polygon_cover pts) ink im)
      | None => None
      end
  | Line pts fill width =>
      match draw_ink fill with
      | Some ink => Some (paint (line_cover pts width) ink im)
      | None => None
      end
  end.

Fixpoint render `{Rasterizer} (ops : list draw_op) (im : image rgba)
  : option (image rgba) :=
  match ops with
  | [] => Some im
  | op :: ops' =>
      match render_op op im with
      | Some im1 => render ops' im1
      | None => None
      end
  end.

(** Division by 255 as two shifts. *)
Definition shift_for_div255 (a : Z) : Z :=
  Z.shiftr (Z.shiftr a 8 + a) 8.

(** A value stored into an 8-bit band. *)
Definition to_u8 (v : Z) : Z := v mod 256.

(** One pixel of [Image.alpha_composite(dst, src)]: [src] over [dst], in
    integer arithmetic with seven extra bits of precision. *)
Definition composite_px (dst src : rgba) : rgba :=
  if alpha src =? 0 then dst
  else
    let blend := alpha dst * (255 - alpha src) in
    let outa255 := alpha src * 255 + blend in
    let coef1 := alpha src * 255 * 255 * Z.shiftl 1 7 / outa255 in
    let coef2 := 255 * Z.shiftl 1 7 - coef1 in
    let band (s d : Z) :=
      to_u8 (Z.shiftr
               (shift_for_div255 (s * coef1 + d * coef2 + Z.shiftl 128 7)) 7) in
    mk_rgba (band (red src) (red dst))
            (band (green src) (green dst))
            (band (blue src) (blue dst))
            (to_u8 (shift_for_div255 (outa255 + 128))).

(** [Image.alpha_composite(dst, src)]: ValueError unless the sizes match. *)
Definition alpha_composite (dst src : image rgba) : option (image rgba) :=
  if (im_width dst =? im_width src) && (im_height dst =? im_height src)
  then Some (mk_image (im_width dst) (im_height dst)
                      (fun x y => composite_px (im_px dst x y) (im_px src x y)))
  else None.

(** [im.convert('RGB')] of an RGBA image keeps the three colour bands and
    drops the alpha band. *)
Definition convert_RGB (im : image rgba) : image rgb :=
  mk_image (im_width im) (im_height im)
           (fun x y => let p := im_px im x y in
                       mk_rgb (red p) (green p) (blue p)).

(** The file system as [Image.save] meets it: whether a file can be created
    or replaced at a path. *)
Class FileSystem : Type := {
  fs_writable : string -> bool
}.

(** [im.save(path, 'PNG')] of an RGB or RGBA image: the PNG writer takes
    both modes, so the call raises (OSError) only when the file cannot be
    opened for writing. *)
Definition Image_save {P : Type} `{FileSystem} (im : image P) (path : string)
  : option unit :=
  if fs_writable path then Some tt else None.

End Pillow.

Import Pillow.

(* ================================================================== *)
(** * The script: constants and helper functions *)
(* ================================================================== *)

(** ** Canvas *)
Definition SIZE : Z := 1024.
Definition CENTER : Z := SIZE / 2.
Definition CX : Z := CENTER.
Definition CY : Z := CENTER.

(** ** Colour palette *)
Definition BG_DARK : list Z := [10; 10; 13; 255].
Definition GOLD : list Z := [212; 168; 83; 255].
Definition GOLD_DARK : list Z := [170; 125; 42; 255].
Definition GOLD_WARM : list Z := [196; 148; 42; 255].
Definition GOLD_LIGHT : list Z := [240; 210; 150; 255].
Definition GOLD_PALE : list Z := [255; 235; 190; 255].
Definition BODY_DARK : list Z := [30; 30; 36; 255].
Definition BODY_MID : list Z := [38; 38; 45; 255].
Definition WING_DARK : list Z := [22; 22; 28; 255].
Definition FACE_DISC : list Z := [40; 40; 48; 255].
Definition EYE_BG : list Z := [6; 6; 8; 255].

(** ** Error handling on [option] *)
Definition obind {A B : Type} (o : option A) (k : A -> option B) : option B :=
  match o with
  | Some a => k a
  | None => None
  end.

Fixpoint mapM {A B : Type} (f : A -> option B) (l : list A) : option (list B) :=
  match l with
  | [] => Some []
  | a :: l' =>
      obind (f a) (fun b => obind (mapM f l') (fun bs => Some (b :: bs)))
  end.

(** ** [lerp] *)

(** One channel: [int(c1[i] + (c2[i] - c1[i]) * t)]. *)
Definition lerp_channel (c1 c2 : list Z) (t : Py.num) (i : Z) : option Z :=
  obind (Py.index c1 i) (fun a =>
  obind (Py.index c2 i) (fun b =>
  Py.int (Py.add (Py.I a) (Py.mul (Py.I (b - a)) t)))).

(** [lerp(c1, c2, t)]: the tuple over [range(len(c1))]. *)
Definition lerp (c1 c2 : list Z) (t : Py.num) : option (list Z) :=
  mapM (lerp_channel c1 c2 t) (map Z.of_nat (seq 0 (length c1))).

(** ** The drawing monad

    The script runs against two pieces of mutable state: the generator of
    [random] and the canvas behind [draw].  The canvas is only read by the
    SAVE section, so it is kept as the list of ImageDraw calls made so far,
    in call order.  [None] is an uncaught exception. *)
Section Script.

Context {G : Type} {RNG : Random G} {LM : Libm}.

Record world : Type := mk_world {
  w_rng : G;
  w_calls : list draw_op
}.

Definition M (A : Type) : Type := world -> option (A * world).

Definition ret {A : Type} (a : A) : M A := fun w => Some (a, w).

Definition bind {A B : Type} (m : M A) (k : A -> M B) : M B :=
  fun w =>
    match m w with
    | Some (a, w') => k a w'
    | None => None
    end.

Definition lift {A : Type} (o : option A) : M A :=
  fun w =>
    match o with
    | Some a => Some (a, w)
    | None => None
    end.

(** One call on [draw]: it raises on a colour that is no ink, and is
    appended to the calls made so far otherwise. *)
Definition emit (op : draw_op) : M unit :=
  fun w =>
    if accepts_inks op
    then Some (tt, mk_world (w_rng w) (w_calls w ++ [op]))
    else None.

Fixpoint for_each {A : Type} (l : list A) (body : A -> M unit) : M unit :=
  match l with
  | [] => ret tt
  | a :: l' => bind (body a) (fun _ => for_each l' body)
  end.

Definition for_range (start stop step : Z) (body : Z -> M unit) : M unit :=
  bind (lift (Py.range start stop step)) (fun l => for_each l body).

(** The calls a computation makes when started on a blank call list. *)
Definition calls_of (m : M unit) (g : G) : option (list draw_op) :=
  match m (mk_world g []) with
  | Some (_, w) => Some (w_calls w)
  | None => None
  end.

(** ** [random] *)
Definition random_seed (n : Z) : M unit :=
  fun w => Some (tt, mk_world (rng_seed n) (w_calls w)).

Definition random_uniform (a b : Py.num) : M float :=
  fun w => let (v, g) := rng_uniform a b (w_rng w) in
           Some (v, mk_world g (w_calls w)).

Definition random_choice (l : list Z) : M Z :=
  fun w =>
    match rng_choice l (w_rng w) with
    | Some (v, g) => Some (v, mk_world g (w_calls w))
    | None => None
    end.

Definition random_randint (a b : Z) : M Z :=
  fun w =>
    match rng_randint a b (w_rng w) with
    | Some (v, g) => Some (v, mk_world g (w_calls w))
    | None => None
    end.

End Script.

Arguments M G A : clear implicits.
Arguments world G : clear implicits.

Declare Scope draw_scope.
Delimit Scope draw_scope with draw.
Notation "x <- m ;; k" := (bind m (fun x => k))
  (at level 61, m at next level, right associativity) : draw_scope.
Notation "m ;; k" := (bind m (fun _ => k))
  (at level 61, right associativity) : draw_scope.

Section Helpers.

Context {G : Type} {RNG : Random G} {LM : Libm}.
Local Open Scope draw_scope.

(** [draw.ellipse(xy, fill=fill)]. *)
Definition draw_ellipse (xy : list Z) (fill : list Z) : M G unit :=
  emit (Ellipse xy (Some fill) None 1).

Definition circle (cx cy r : Z) (fill : list Z) : M G unit :=
  emit (Ellipse [cx - r; cy - r; cx + r; cy + r] (Some fill) None 1).

Definition ring (cx cy r w : Z) (fill : list Z) : M G unit :=
  emit (Ellipse [cx - r; cy - r; cx + r; cy + r] None (Some fill) w).

Definition poly (pts : list (Z * Z)) (fill : list Z) : M G unit :=
  emit (Polygon pts fill).

Definition line (x1 y1 x2 y2 : Z) (fill : list Z) (w : Z) : M G unit :=
  emit (Line [(x1, y1); (x2, y2)] fill w).

(** [aa_line]: an outer glow three pixels wider at a quarter of the alpha
    (at least 10), then the main line.  [color[3]] raises on a colour of
    fewer than four elements, and each [d.line] call on a colour that is no
    ink. *)
Definition aa_line (x1 y1 x2 y2 : Z) (color : list Z) (width : Z)
  : M G unit :=
  a <- lift (Py.index color 3) ;;
  let glow := firstn 3 color ++ [Z.max 10 (a / 4)] in
  emit (Line [(x1, y1); (x2, y2)] glow (width + 3)) ;;
  emit (Line [(x1, y1); (x2, y2)] color width).

End Helpers.

(* ================================================================== *)
(** * The script: layers *)
(* ================================================================== *)

(** Vertical offset of the owl and the measures derived from it. *)
Definition OWL_Y : Z := -25.
Definition HEAD_Y : Z := CY - 185 + OWL_Y.
Definition HEAD_RX : Z := 148.
Definition HEAD_RY : Z := 125.
Definition EAR_H : Z := 70.
Definition EYE_Y : Z := HEAD_Y - 10.
Definition EYE_SPACING : Z := 62.
Definition BEAK_Y : Z := HEAD_Y + 32.
Definition chest_top : Z := CY + 15 + OWL_Y.
Definition chest_bot : Z := CY + 250 + OWL_Y.
Definition chest_mid : Z := (chest_top + chest_bot) / 2.
Definition FEET_Y : Z := CY + 280 + OWL_Y.

(** The float literals [0.35], [0.55], [0.75] of the feather lines. *)
Definition feather_fracs : list float :=
  [0x1.6666666666666p-2%float; 0x1.199999999999ap-1%float; 0x1.8p-1%float].

(** ** Chest pattern *)
Definition nodes : list (Z * Z) := [
  (* Layer 0 - root *)
  (CX, chest_top + 10);
  (* Layer 1 *)
  (CX - 35, chest_top + 55);
  (CX + 35, chest_top + 55);
  (CX, chest_top + 70);
  (* Layer 2 *)
  (CX - 70, chest_top + 100);
  (CX - 25, chest_top + 110);
  (CX + 25, chest_top + 110);
  (CX + 70, chest_top + 100);
  (* Layer 3 *)
  (CX - 100, chest_top + 155);
  (CX - 55, chest_top + 160);
  (CX, chest_top + 170);
  (CX + 55, chest_top + 160);
  (CX + 100, chest_top + 155);
  (* Layer 4 *)
  (CX - 70, chest_top + 210);
  (CX - 25, chest_top + 220);
  (CX + 25, chest_top + 220);
  (CX + 70, chest_top + 210)
].

Definition conns : list (Z * Z) := [
  (* Root to Layer 1 *)
  (0, 1); (0, 2); (0, 3);
  (* Layer 1 to Layer 2 *)
  (1, 4); (1, 5); (2, 6); (2, 7); (3, 5); (3, 6);
  (* Layer 2 to Layer 3 *)
  (4, 8); (4, 9); (5, 9); (5, 10); (6, 10); (6, 11); (7, 11); (7, 12);
  (* Layer 3 to Layer 4 *)
  (8, 13); (9, 13); (9, 14); (10, 14); (10, 15); (11, 15); (11, 16); (12, 16);
  (* Cross connections *)
  (1, 3); (2, 3);
  (4, 5); (6, 7);
  (8, 9); (9, 10); (10, 11); (11, 12);
  (13, 14); (14, 15); (15, 16)
].

(** ** Head pattern *)
Definition h_nodes : list (Z * Z) := [
  (CX, HEAD_Y - 85);
  (CX - 35, HEAD_Y - 70);
  (CX + 35, HEAD_Y - 70);
  (CX - 55, HEAD_Y - 45);
  (CX - 18, HEAD_Y - 48);
  (CX + 18, HEAD_Y - 48);
  (CX + 55, HEAD_Y - 45);
  (CX, HEAD_Y - 28)
].

Definition h_conns : list (Z * Z) := [
  (0, 1); (0, 2);
  (1, 3); (1, 4); (2, 5); (2, 6);
  (3, 4); (4, 7); (5, 7); (5, 6);
  (1, 2); (4, 5)
].

(** The alpha of a chest connection from its endpoints:
    [dist = math.sqrt((x2 - x1) ** 2 + (y2 - y1) ** 2)] and
    [base_alpha = 100 + int(50 * (1 - min(dist / 200, 1)))]. *)
Definition connection_base_alpha (x1 y1 x2 y2 : Z) : option Z :=
  obind (Py.math_sqrt (Py.I ((x2 - x1) ^ 2 + (y2 - y1) ^ 2))) (fun dist =>
  obind (Py.truediv (Py.F dist) (Py.I 200)) (fun q =>
  obind (Py.int (Py.mul (Py.I 50) (Py.sub (Py.I 1) (Py.min q (Py.I 1)))))
        (fun v => Some (100 + v)))).

Section Layers.

Context {G : Type} {RNG : Random G} {LM : Libm}.
Local Open Scope draw_scope.

(** *** Layer 1: background *)
Definition layer_background : M G unit :=
  for_range 440 0 (-2) (fun r =>
    t <- lift (Py.truediv (Py.I r) (Py.I 440)) ;;
    p <- lift (float_pow (Py.to_float (Py.sub (Py.I 1) t)) 2) ;;
    alpha <- lift (Py.int (Py.mul (Py.I 25) (Py.F p))) ;;
    circle CX (CY - 20) r [180; 140; 60; alpha]).

(** *** Layer 2: body silhouette *)
Definition layer_body : M G unit :=
  draw_ellipse [CX - 160; CY + 30 + OWL_Y; CX + 160; CY + 290 + OWL_Y] BODY_DARK ;;
  draw_ellipse [CX - 155; CY - 40 + OWL_Y; CX + 155; CY + 180 + OWL_Y] BODY_DARK ;;
  draw_ellipse [CX - 130; CY - 120 + OWL_Y; CX + 130; CY + 60 + OWL_Y] BODY_DARK.

(** *** Layer 3: head and ear tufts *)
Definition layer_head : M G unit :=
  draw_ellipse [CX - HEAD_RX; HEAD_Y - HEAD_RY; CX + HEAD_RX; HEAD_Y + HEAD_RY]
               BODY_DARK ;;
  for_each [-1; 1] (fun side =>
    let ear_x := CX + side * 105 in
    let ear_tip_x := CX + side * 95 in
    let ear_base_inner := CX + side * 65 in
    let ear_pts := [
      (ear_x, HEAD_Y - HEAD_RY + 25);
      (ear_tip_x, HEAD_Y - HEAD_RY - EAR_H);
      (ear_base_inner, HEAD_Y - HEAD_RY + 15)
    ] in
    poly ear_pts BODY_DARK ;;
    line ear_x (HEAD_Y - HEAD_RY + 25) ear_tip_x (HEAD_Y - HEAD_RY - EAR_H)
         [212; 168; 83; 70] 2).

(** *** Layer 4: facial disc *)
Definition layer_face : M G unit :=
  draw_ellipse [CX - 100; HEAD_Y - 75; CX + 100; HEAD_Y + 55] FACE_DISC ;;
  poly [(CX - 15, HEAD_Y - 80);
        (CX, HEAD_Y - 55);
        (CX + 15, HEAD_Y - 80);
        (CX, HEAD_Y - 90)] BODY_DARK.

(** *** Layer 5: eyes *)
Definition layer_eyes : M G unit :=
  for_each [-1; 1] (fun side =>
    let ex := CX + side * EYE_SPACING in
    ring ex EYE_Y 40 3 GOLD ;;
    circle ex EYE_Y 38 EYE_BG ;;
    for_range 30 0 (-1) (fun r =>
      t <- lift (Py.truediv (Py.I r) (Py.I 30)) ;;
      col <- lift (lerp GOLD_LIGHT GOLD_DARK (Py.mul t t)) ;;
      circle ex EYE_Y r col) ;;
    circle ex EYE_Y 12 EYE_BG ;;
    ring ex EYE_Y 12 1 [212; 168; 83; 40] ;;
    circle (ex - 9) (EYE_Y - 9) 5 GOLD_PALE ;;
    circle (ex + 5) (EYE_Y + 5) 2 [240; 210; 150; 100]).

(** *** Layer 6: beak *)
Definition layer_beak : M G unit :=
  poly [(CX - 11, BEAK_Y); (CX + 11, BEAK_Y); (CX, BEAK_Y + 22)] GOLD_WARM ;;
  line (CX - 10) (BEAK_Y + 1) CX (BEAK_Y + 20) GOLD_LIGHT 1.

(** *** Layer 7: wings *)
Definition layer_wings : M G unit :=
  for_each [-1; 1] (fun side =>
    let s := side in
    let wing_pts := [
      (CX + s * 150, CY - 50 + OWL_Y);
      (CX + s * 175, CY + 10 + OWL_Y);
      (CX + s * 200, CY + 80 + OWL_Y);
      (CX + s * 205, CY + 160 + OWL_Y);
      (CX + s * 185, CY + 220 + OWL_Y);
      (CX + s * 155, CY + 260 + OWL_Y);
      (CX + s * 135, CY + 230 + OWL_Y);
      (CX + s * 130, CY + 160 + OWL_Y);
      (CX + s * 135, CY + 60 + OWL_Y)
    ] in
    poly wing_pts WING_DARK ;;
    for_range 0 5 1 (fun i =>
      p1 <- lift (Py.index wing_pts i) ;;
      p2 <- lift (Py.index wing_pts (i + 1)) ;;
      line (fst p1) (snd p1) (fst p2) (snd p2) [212; 168; 83; 55] 2) ;;
    p4 <- lift (Py.index wing_pts 4) ;;
    p5 <- lift (Py.index wing_pts 5) ;;
    line (fst p4) (snd p4) (fst p5) (snd p5) [212; 168; 83; 70] 2 ;;
    for_each (Py.enumerate feather_fracs) (fun jf =>
      let j := fst jf in
      let frac := snd jf in
      fy <- lift (Py.int (Py.add (Py.I (CY + OWL_Y + 20))
                                 (Py.mul (Py.F frac) (Py.I 200)))) ;;
      fx_inner <- lift (Py.int (Py.I (CX + s * 138))) ;;
      fx_outer <- lift (Py.int (Py.I (CX + s * (195 - j * 12)))) ;;
      line fx_inner fy fx_outer (fy + 12) [212; 168; 83; 30] 1)).

(** *** Layer 8: neural pattern on the chest *)
Definition chest_glow : M G unit :=
  for_range 130 0 (-2) (fun r =>
    t <- lift (Py.truediv (Py.I r) (Py.I 130)) ;;
    p <- lift (float_pow (Py.to_float (Py.sub (Py.I 1) t)) 2) ;;
    alpha <- lift (Py.int (Py.mul (Py.I 12) (Py.F p))) ;;
    circle CX (chest_mid - 10) r [212; 168; 83; alpha]).

(** The body of the loop over [conns]: four passes over one segment. *)
Definition draw_connection (a b : Z) : M G unit :=
  p1 <- lift (Py.index nodes a) ;;
  p2 <- lift (Py.index nodes b) ;;
  let x1 := fst p1 in
  let y1 := snd p1 in
  let x2 := fst p2 in
  let y2 := snd p2 in
  base_alpha <- lift (connection_base_alpha x1 y1 x2 y2) ;;
  (* Wide glow *)
  line x1 y1 x2 y2 [212; 168; 83; base_alpha / 3] 7 ;;
  (* Mid glow *)
  line x1 y1 x2 y2 [212; 168; 83; base_alpha / 2] 4 ;;
  (* Main line *)
  line x1 y1 x2 y2 [212; 168; 83; base_alpha] 2 ;;
  (* Bright core *)
  line x1 y1 x2 y2 [240; 210; 150; base_alpha / 2] 1.

(** The body of the loop over [enumerate(nodes)]: three circles whose sizes
    and alphas depend on the tier of the index. *)
Definition draw_node (i nx ny : Z) : M G unit :=
  if i =? 0 then
    circle nx ny 12 [212; 168; 83; 60] ;;
    circle nx ny 7 [212; 168; 83; 220] ;;
    circle nx ny 4 GOLD_LIGHT
  else if i <=? 3 then
    circle nx ny 10 [212; 168; 83; 50] ;;
    circle nx ny 6 [212; 168; 83; 200] ;;
    circle nx ny 3 GOLD_LIGHT
  else if i <=? 7 then
    circle nx ny 8 [212; 168; 83; 45] ;;
    circle nx ny 5 [212; 168; 83; 180] ;;
    circle nx ny 2 GOLD_LIGHT
  else if i <=? 12 then
    circle nx ny 7 [212; 168; 83; 40] ;;
    circle nx ny 4 [212; 168; 83; 160] ;;
    circle nx ny 2 GOLD_LIGHT
  else
    circle nx ny 6 [212; 168; 83; 35] ;;
    circle nx ny 4 [212; 168; 83; 140] ;;
    circle nx ny 2 GOLD_LIGHT.

Definition layer_chest : M G unit :=
  chest_glow ;;
  for_each conns (fun ab => draw_connection (fst ab) (snd ab)) ;;
  for_each (Py.enumerate nodes) (fun ip =>
    draw_node (fst ip) (fst (snd ip)) (snd (snd ip))).

(** *** Layer 9: neural pattern on the head *)
Definition draw_head_connection (a b : Z) : M G unit :=
  p1 <- lift (Py.index h_nodes a) ;;
  p2 <- lift (Py.index h_nodes b) ;;
  let x1 := fst p1 in
  let y1 := snd p1 in
  let x2 := fst p2 in
  let y2 := snd p2 in
  line x1 y1 x2 y2 [212; 168; 83; 30] 5 ;;
  line x1 y1 x2 y2 [212; 168; 83; 70] 2 ;;
  line x1 y1 x2 y2 [240; 210; 150; 35] 1.

Definition layer_head_pattern : M G unit :=
  for_each h_conns (fun ab => draw_head_connection (fst ab) (snd ab)) ;;
  for_each h_nodes (fun h =>
    let hx := fst h in
    let hy := snd h in
    circle hx hy 5 [212; 168; 83; 50] ;;
    circle hx hy 3 [212; 168; 83; 160] ;;
    circle hx hy 1 GOLD_LIGHT).

(** *** Layer 10: feet *)
Definition layer_feet : M G unit :=
  for_each [-1; 1] (fun side =>
    let fx := CX + side * 45 in
    for_each [-10; 0; 10] (fun offset =>
      line (fx + offset) FEET_Y (fx + offset + side * 4) (FEET_Y + 16)
           [212; 168; 83; 80] 2)).

(** *** Layer 11: framing and ambient particles *)

(** The body of the particle loop. *)
Definition particle : M G unit :=
  angle <- random_uniform (Py.I 0) (Py.mul (Py.I 2) (Py.F math_pi)) ;;
  dist <- random_uniform (Py.I 360) (Py.I 465) ;;
  c <- lift (math_cos (Py.F angle)) ;;
  px <- lift (Py.int (Py.add (Py.I CX) (Py.mul (Py.F dist) (Py.F c)))) ;;
  s <- lift (math_sin (Py.F angle)) ;;
  py <- lift (Py.int (Py.add (Py.I CY) (Py.mul (Py.F dist) (Py.F s)))) ;;
  sz <- random_choice [1; 1; 2] ;;
  alpha <- random_randint 15 45 ;;
  circle px py sz [212; 168; 83; alpha].

Definition ambient_particles : M G unit :=
  for_range 0 25 1 (fun _ => particle).

Definition layer_framing : M G unit :=
  ring CX CY 478 1 [212; 168; 83; 40] ;;
  ambient_particles.

(** *** Layers 1 to 10, in drawing order *)
Definition fixed_layers : M G unit :=
  layer_background ;;
  layer_body ;;
  layer_head ;;
  layer_face ;;
  layer_eyes ;;
  layer_beak ;;
  layer_wings ;;
  layer_chest ;;
  layer_head_pattern ;;
  layer_feet.

(** *** The drawing part of the script, from [random.seed(42)] on *)
Definition script : M G unit :=
  random_seed 42 ;;
  fixed_layers ;;
  layer_framing.

End Layers.

(* ================================================================== *)
(** * The script: canvas and SAVE section *)
(* ================================================================== *)

Section Pipeline.

Context {G : Type} {RNG : Random G} {LM : Libm} {RA : Rasterizer}
        {FS : FileSystem}.

(** [img] once every layer is drawn: the canvas created from [BG_DARK] with
    the calls of the script applied in order.  [g0] is the state of the
    generator when the process starts. *)
Definition canvas (g0 : G) : option (image rgba) :=
  obind (Image_new SIZE SIZE BG_DARK) (fun img =>
  obind (calls_of script g0) (fun calls =>
  render calls img)).

(** The path of the first file, and the path of the second derived from
    it. *)
Definition output_path : string :=
  "/Users/vivienmartin/Desktop/hora 2/claude/mascot-hora.png"%string.

Definition rgba_path : string :=
  Py.str_replace output_path ".png" "-rgba.png".

(** The SAVE section: [img] composited over a fresh [BG_DARK] image; its
    RGB conversion is saved at [output_path], then the composite itself at
    [rgba_path].  A save that fails raises: the section ends there, with
    whatever was saved before left on disk. *)
Definition save_outputs (img : image rgba) : option (image rgb * image rgba) :=
  obind (Image_new SIZE SIZE BG_DARK) (fun bg =>
  obind (alpha_composite bg img) (fun img_final =>
  let img_rgb := convert_RGB img_final in
  obind (Image_save img_rgb output_path) (fun _ =>
  obind (Image_save img_final rgba_path) (fun _ =>
  Some (img_rgb, img_final))))).

(** One run of the program: the two rasters written to disk. *)
Definition main (g0 : G) : option (image rgb * image rgba) :=
  obind (canvas g0) save_outputs.

End Pipeline.

(* ================================================================== *)
(** * Reference instances of the libraries

    Small executable stand-ins for the C library, the generator and the
    rasteriser, on which the model can be run. *)
(* ================================================================== *)

(** Truncated Taylor series and power by repeated multiplication. *)
Fixpoint pow_nat (x : float) (n : nat) : float :=
  match n with
  | O => PrimFloat.one
  | S n' => PrimFloat.mul x (pow_nat x n')
  end.

Definition taylor_libm : Libm := {|
  libm_cos := fun x =>
    PrimFloat.add
      (PrimFloat.sub PrimFloat.one
         (PrimFloat.div (pow_nat x 2) (Py.float_of_Z 2)))
      (PrimFloat.div (pow_nat x 4) (Py.float_of_Z 24));
  libm_sin := fun x =>
    PrimFloat.sub x (PrimFloat.div (pow_nat x 3) (Py.float_of_Z 6));
  libm_pow := fun x y =>
    match Py.int_of_float y with
    | Some n => pow_nat x (Z.to_nat n)
    | None => PrimFloat.nan
    end
|}.

(** A linear congruential generator on 31 bits; samples are read off the
    high bits of the state. *)
Definition lcg_next (g : Z) : Z := (g * 1103515245 + 12345) mod 2 ^ 31.
Definition lcg_bits (g : Z) : Z := g / 65536.

Definition lcg_random : Random Z := {|
  rng_seed := fun n => n mod 2 ^ 31;
  rng_uniform := fun a b g =>
    ((if Z.even (lcg_bits g) then Py.to_float a else Py.to_float b),
     lcg_next g);
  rng_choice := fun l g =>
    match nth_error l (Z.to_nat (lcg_bits g mod Z.of_nat (length l))) with
    | Some v => Some (v, lcg_next g)
    | None => None
    end;
  rng_randint := fun a b g =>
    if b <? a then None
    else Some (a + lcg_bits g mod (b - a + 1), lcg_next g)
|}.

(** The same generator with [uniform] computed as [random.uniform] does,
    from a [random()] that is read off one bit of the state and returns its
    smallest or its largest value. *)
Definition lcg_unit (g : Z) : float :=
  if Z.even (lcg_bits g) then PrimFloat.zero else random_max.

Definition lcg_uniform_random : Random Z := {|
  rng_seed := rng_seed (Random:=lcg_random);
  rng_uniform := fun a b g => (uniform_at a b (lcg_unit g), lcg_next g);
  rng_choice := rng_choice (Random:=lcg_random);
  rng_randint := rng_randint (Random:=lcg_random)
|}.

(** A rasteriser that covers the bounding box of every shape. *)
Definition in_box (x0 y0 x1 y1 x y : Z) : bool :=
  (x0 <=? x) && (x <=? x1) && (y0 <=? y) && (y <=? y1).

Definition points_box (pts : list (Z * Z)) (pad x y : Z) : bool :=
  match pts with
  | [] => false
  | p :: _ =>
      let x0 := fold_right Z.min (fst p) (map fst pts) in
      let x1 := fold_right Z.max (fst p) (map fst pts) in
      let y0 := fold_right Z.min (snd p) (map snd pts) in
      let y1 := fold_right Z.max (snd p) (map snd pts) in
      in_box (x0 - pad) (y0 - pad) (x1 + pad) (y1 + pad) x y
  end.

Definition box_rasterizer : Rasterizer := {|
  ellipse_cover := fun xy filled width x y =>
    match xy with
    | [x0; y0; x1; y1] =>
        in_box x0 y0 x1 y1 x y
        && (filled
            || negb (in_box (x0 + width) (y0 + width)
                            (x1 - width) (y1 - width) x y))
    | _ => false
    end;
  polygon_cover := fun pts x y => points_box pts 0 x y;
  line_cover := fun pts width x y => points_box pts (width / 2) x y
|}.

(** A file system on which every path can be written, and one on which
    only the first output file can. *)
Definition open_files : FileSystem := {| fs_writable := fun _ => true |}.

Definition first_file_only : FileSystem := {|
  fs_writable := fun path => String.eqb path output_path
|}.

Definition is_some {A : Type} (o : option A) : bool :=
  match o with
  | Some _ => true
  | None => false
  end.

(* ================================================================== *)
(** * Vocabulary of the properties *)
(* ================================================================== *)

(** ** Connections of the chest pattern *)

(** The endpoint coordinates [x1, y1, x2, y2] of a connection. *)
Definition conn_endpoints (ab : Z * Z) : option (Z * Z * Z * Z) :=
  obind (Py.index nodes (fst ab)) (fun p1 =>
  obind (Py.index nodes (snd ab)) (fun p2 =>
  Some (fst p1, snd p1, fst p2, snd p2))).

(** The base alpha the script computes for a connection. *)
Definition conn_alpha (ab : Z * Z) : option Z :=
  obind (conn_endpoints ab) (fun e =>
  match e with
  | (x1, y1, x2, y2) => connection_base_alpha x1 y1 x2 y2
  end).

(** The squared length of a connection, an integer. *)
Definition conn_dist2 (ab : Z * Z) : Z :=
  match conn_endpoints ab with
  | Some (x1, y1, x2, y2) => (x2 - x1) ^ 2 + (y2 - y1) ^ 2
  | None => 0
  end.

(** The Euclidean length of a connection, a real number. *)
Definition conn_dist (ab : Z * Z) : R := sqrt (IZR (conn_dist2 ab)).

(** The alpha formula as the specification words it, over the reals:
    [100 + floor(50 * (1 - min(dist / 200, 1)))]. *)
Definition spec_base_alpha (dist : R) : Z :=
  100 + Int_part (50 * (1 - Rmin (dist / 200) 1))%R.

(** Checks, in integers, that [ba] is the value of [spec_base_alpha] at the
    distance whose square is [d2]: with [k = ba - 100], the distance lies in
    the half-open interval on which the floor is [k]. *)
Definition alpha_matches (d2 ba : Z) : bool :=
  let k := ba - 100 in
  (0 <=? k) && (k <=? 49)
  && ((4 * (49 - k)) ^ 2 <? d2) && (d2 <=? (4 * (50 - k)) ^ 2).

Definition conn_alpha_checked (ab : Z * Z) : bool :=
  match conn_alpha ab with
  | Some ba => alpha_matches (conn_dist2 ab) ba
  | None => false
  end.

(** ** Passes of a line rendering *)

Definition line_points (op : draw_op) : option (list (Z * Z)) :=
  match op with
  | Line pts _ _ => Some pts
  | _ => None
  end.

Definition line_width (op : draw_op) : option Z :=
  match op with
  | Line _ _ w => Some w
  | _ => None
  end.

Definition line_alpha (op : draw_op) : option Z :=
  match op with
  | Line _ fill _ => Py.index fill 3
  | _ => None
  end.

Fixpoint strictly_decreasing (l : list Z) : bool :=
  match l with
  | a :: (b :: _) as l' => (b <? a) && strictly_decreasing l'
  | _ => true
  end.

Fixpoint strictly_increasing (l : list Z) : bool :=
  match l with
  | a :: (b :: _) as l' => (a <? b) && strictly_increasing l'
  | _ => true
  end.

Definition point_eqb (p q : Z * Z) : bool :=
  (fst p =? fst q) && (snd p =? snd q).

Fixpoint points_eqb (l1 l2 : list (Z * Z)) : bool :=
  match l1, l2 with
  | [], [] => true
  | p :: l1', q :: l2' => point_eqb p q && points_eqb l1' l2'
  | _, _ => false
  end.

(** Every pass strokes the same point list. *)
Definition same_geometry (segs : list (list (Z * Z))) : bool :=
  match segs with
  | [] => true
  | s :: rest => forallb (points_eqb s) rest
  end.

(** The layering as the specification words it: three to four passes over
    the same geometry, widths strictly decreasing, alphas increasing, from
    each pass to the next. *)
Definition glow_as_specified (calls : list draw_op) : bool :=
  match mapM line_points calls, mapM line_width calls,
        mapM line_alpha calls with
  | Some segs, Some ws, Some als =>
      same_geometry segs
      && (3 <=? Z.of_nat (length calls)) && (Z.of_nat (length calls) <=? 4)
      && strictly_decreasing ws && strictly_increasing als
  | _, _, _ => false
  end.

(** The layering the script draws: [n] passes over the same geometry, widths
    strictly decreasing, alphas strictly increasing over the first [rising]
    passes, and every later pass below the last rising one. *)
Definition glow_as_drawn (n rising : nat) (calls : list draw_op) : bool :=
  match mapM line_points calls, mapM line_width calls,
        mapM line_alpha calls with
  | Some segs, Some ws, Some als =>
      same_geometry segs
      && Nat.eqb (length calls) n
      && strictly_decreasing ws
      && strictly_increasing (firstn rising als)
      && forallb (fun a => a <? last (firstn rising als) 0) (skipn rising als)
  | _, _, _ => false
  end.

(** ** Tiers of the chest nodes *)

(** A row of the tier table: outer-glow radius and alpha, core radius and
    alpha, highlight radius. *)
Record tier : Type := mk_tier {
  glow_radius : Z;
  glow_alpha : Z;
  core_radius : Z;
  core_alpha : Z;
  highlight_radius : Z
}.

Definition tier_root : tier := mk_tier 12 60 7 220 4.
Definition tier_outermost : tier := mk_tier 6 35 4 140 2.

(** The three [circle] calls that draw a node with the sizes of a row. *)
Definition tier_calls (t : tier) (nx ny : Z) : list draw_op :=
  let disc r fill :=
    Ellipse [nx - r; ny - r; nx + r; ny + r] (Some fill) None 1 in
  [disc (glow_radius t) [212; 168; 83; glow_alpha t];
   disc (core_radius t) [212; 168; 83; core_alpha t];
   disc (highlight_radius t) GOLD_LIGHT].

(** ** Byte tables for the endpoints of [lerp] *)

Definition is_byte (z : Z) : Prop := 0 <= z <= 255.

Definition bytes : list Z := map Z.of_nat (seq 0 256).

(** [float(b)] for every byte, and [float(d)] for every difference of two
    bytes, as tables indexed from 0 and from -255. *)
Definition byte_floats : list float := map Py.float_of_Z bytes.
Definition diff_floats : list float :=
  map (fun k => Py.float_of_Z (Z.of_nat k - 255)) (seq 0 511).

(** For one first channel [fa]: at every second channel [fb], with [fd] the
    float of their difference, [fa + fd * 0.0] is [fa] and [fa + fd * 1.0]
    is [fb], as binary64 values. *)
Fixpoint endpoints_row (fa : float) (fds fbs : list float) : bool :=
  match fds, fbs with
  | fd :: fds', fb :: fbs' =>
      PrimFloat.Leibniz.eqb
        (PrimFloat.add fa (PrimFloat.mul fd PrimFloat.zero)) fa
      && PrimFloat.Leibniz.eqb
           (PrimFloat.add fa (PrimFloat.mul fd PrimFloat.one)) fb
      && endpoints_row fa fds' fbs'
  | _, _ => true
  end.

Definition endpoints_table : bool :=
  forallb (fun i => endpoints_row (nth i byte_floats PrimFloat.zero)
                                  (skipn (255 - i) diff_floats) byte_floats)
          (seq 0 256).

Definition byte_roundtrip (b : Z) : bool :=
  match Py.int_of_float (Py.float_of_Z b) with
  | Some v => v =? b
  | None => false
  end.

(** ** Index pairs of a node list *)

Definition valid_pair {A : Type} (l : list A) (ab : Z * Z) : Prop :=
  0 <= fst ab < Z.of_nat (length l) /\
  0 <= snd ab < Z.of_nat (length l) /\
  (exists p, Py.index l (fst ab) = Some p) /\
  (exists q, Py.index l (snd ab) = Some q).

(** ** The ambient scatter *)

Section Scatter.

Context {G : Type} {RNG : Random G} {LM : Libm}.

(** The call [circle(draw, px, py, sz, (212, 168, 83, alpha))] of one
    particle. *)
Definition particle_call (px py sz alpha : Z) : draw_op :=
  Ellipse [px - sz; py - sz; px + sz; py + sz]
          (Some [212; 168; 83; alpha]) None 1.

(** [2 * math.pi] as the script computes it. *)
Definition turn : float := Py.to_float (Py.mul (Py.I 2) (Py.F math_pi)).

(** An angle in [0, 2 * pi): the upper bound is excluded. *)
Definition angle_in_turn (angle : float) : Prop :=
  PrimFloat.leb PrimFloat.zero angle = true /\
  PrimFloat.ltb angle turn = true.

(** A radial distance in the annulus between the radii 360 and 465: both
    bounds are included. *)
Definition dist_in_annulus (dist : float) : Prop :=
  PrimFloat.leb (Py.float_of_Z 360) dist = true /\
  PrimFloat.leb dist (Py.float_of_Z 465) = true.

(** One particle, drawn with the generator in state [g] and leaving it in
    state [g']: the angle comes from [uniform(0, 2 * pi)] and lies in
    [0, 2 * pi), the radial distance comes from [uniform(360, 465)] and lies
    in the annulus, the centre is their polar point around the canvas
    centre, the size comes from [choice([1, 1, 2])] and is 1 or 2, and the
    alpha comes from [randint(15, 45)] and lies in 15..45, in this order. *)
Inductive particle_drawn : G -> draw_op -> G -> Prop :=
| particle_drawn_intro g angle g1 dist g2 c s px py sz g3 alpha g4 :
    rng_uniform (Py.I 0) (Py.mul (Py.I 2) (Py.F math_pi)) g = (angle, g1) ->
    angle_in_turn angle ->
    rng_uniform (Py.I 360) (Py.I 465) g1 = (dist, g2) ->
    dist_in_annulus dist ->
    math_cos (Py.F angle) = Some c ->
    Py.int (Py.add (Py.I CX) (Py.mul (Py.F dist) (Py.F c))) = Some px ->
    math_sin (Py.F angle) = Some s ->
    Py.int (Py.add (Py.I CY) (Py.mul (Py.F dist) (Py.F s))) = Some py ->
    rng_choice [1; 1; 2] g2 = Some (sz, g3) ->
    rng_randint 15 45 g3 = Some (alpha, g4) ->
    (sz = 1 \/ sz = 2) ->
    15 <= alpha <= 45 ->
    particle_drawn g (particle_call px py sz alpha) g4.

(** A run of particles, each starting from the state the previous left. *)
Inductive scatter : G -> list draw_op -> G -> Prop :=
| scatter_nil g : scatter g [] g
| scatter_cons g op g1 ops g2 :
    particle_drawn g op g1 -> scatter g1 ops g2 ->
    scatter g (op :: ops) g2.

(** What the script relies on from [random] and from the C library:
    [uniform(a, b)] lies between the values that [a + (b - a) * random()]
    takes at the smallest and at the largest value of [random()], whenever
    these two are in order; [choice] returns a member of a non-empty
    sequence, [randint] a member of a non-empty range; and the polar point
    of a sampled angle and distance is a finite number, so that [int()]
    accepts it. *)
Definition uniform_lawful : Prop :=
  forall a b g,
    let low := uniform_at a b PrimFloat.zero in
    let top := uniform_at a b random_max in
    PrimFloat.leb low top = true ->
    PrimFloat.leb low (fst (rng_uniform a b g)) = true /\
    PrimFloat.leb (fst (rng_uniform a b g)) top = true.

Definition choice_lawful : Prop :=
  forall l g, l <> [] ->
    exists v g', rng_choice l g = Some (v, g') /\ In v l.

Definition randint_lawful : Prop :=
  forall a b g, a <= b ->
    exists v g', rng_randint a b g = Some (v, g') /\ a <= v <= b.

Definition polar_defined : Prop :=
  forall g angle g1 dist g2,
    rng_uniform (Py.I 0) (Py.mul (Py.I 2) (Py.F math_pi)) g = (angle, g1) ->
    rng_uniform (Py.I 360) (Py.I 465) g1 = (dist, g2) ->
    exists c s px py,
      math_cos (Py.F angle) = Some c /\
      Py.int (Py.add (Py.I CX) (Py.mul (Py.F dist) (Py.F c))) = Some px /\
      math_sin (Py.F angle) = Some s /\
      Py.int (Py.add (Py.I CY) (Py.mul (Py.F dist) (Py.F s))) = Some py.

(** A computation that leaves the generator as it found it. *)
Definition keeps_rng {A : Type} (m : M G A) : Prop :=
  forall w a w', m w = Some (a, w') -> w_rng w' = w_rng w.

(** A computation that only appends to the call list. *)
Definition extends_calls {A : Type} (m : M G A) : Prop :=
  forall w a w', m w = Some (a, w') ->
    exists more, w_calls w' = w_calls w ++ more.

End Scatter.

(** ** Interpolation with an int parameter *)

(** [lerp] as exact integer arithmetic on the channel pairs. *)
Definition lerp_exact (c1 c2 : list Z) (k : Z) : list Z :=
  map (fun ab => fst ab + (snd ab - fst ab) * k) (combine c1 c2).

(** ** All rows of the tier table *)

Definition tier_1 : tier := mk_tier 10 50 6 200 3.
Definition tier_2 : tier := mk_tier 8 45 5 180 2.
Definition tier_3 : tier := mk_tier 7 40 4 160 2.

(** The row of a node index, by the index ranges of the node loop. *)
Definition node_tier (i : Z) : tier :=
  if i =? 0 then tier_root
  else if i <=? 3 then tier_1
  else if i <=? 7 then tier_2
  else if i <=? 12 then tier_3
  else tier_outermost.

(** A row is at most another when each of its five entries is. *)
Definition tier_le (t u : tier) : Prop :=
  glow_radius t <= glow_radius u /\
  glow_alpha t <= glow_alpha u /\
  core_radius t <= core_radius u /\
  core_alpha t <= core_alpha u /\
  highlight_radius t <= highlight_radius u.

(** ** Computations that ignore the generator *)

Section Blindness.

Context {G : Type}.

(** [m] has the outcome [o] whatever the world: it fails when [o] is
    [None], and otherwise returns the value of [o] after appending the calls
    of [o], leaving the generator alone. *)
Definition pure_drawing {A : Type} (m : M G A)
    (o : option (A * list draw_op)) : Prop :=
  forall g cs,
    m (mk_world g cs)
    = match o with
      | Some (a, more) => Some (a, mk_world g (cs ++ more))
      | None => None
      end.

Definition rng_blind {A : Type} (m : M G A) : Prop :=
  exists o, pure_drawing m o.

(** Every call [m] appends satisfies [P]. *)
Definition emits_only (P : draw_op -> bool) {A : Type} (m : M G A) : Prop :=
  forall w a w', m w = Some (a, w') ->
    exists more, w_calls w' = w_calls w ++ more /\ forallb P more = true.

End Blindness.

(** ** Where a call can draw *)

(** The box of a point list, grown by [pad] on every side. *)
Definition pts_box (pts : list (Z * Z)) (pad : Z) : option (Z * Z * Z * Z) :=
  match pts with
  | [] => None
  | p :: _ =>
      Some (fold_right Z.min (fst p) (map fst pts) - pad,
            fold_right Z.min (snd p) (map snd pts) - pad,
            fold_right Z.max (fst p) (map fst pts) + pad,
            fold_right Z.max (snd p) (map snd pts) + pad)
  end.

(** The box [(x0, y0, x1, y1)] a call draws in: the bounding box of an
    ellipse, the box of the vertices of a polygon, the box of the points of
    a line grown by its width. *)
Definition op_box (op : draw_op) : option (Z * Z * Z * Z) :=
  match op with
  | Ellipse [x0; y0; x1; y1] _ _ _ => Some (x0, y0, x1, y1)
  | Ellipse _ _ _ _ => None
  | Polygon pts _ => pts_box pts 0
  | Line pts _ w => pts_box pts (Z.max 0 w)
  end.

(** The box of [op] is well formed and lies in [lo..hi] on both axes. *)
Definition inside (lo hi : Z) (op : draw_op) : bool :=
  match op_box op with
  | Some (x0, y0, x1, y1) =>
      (lo <=? x0) && (x0 <=? x1) && (x1 <=? hi)
      && (lo <=? y0) && (y0 <=? y1) && (y1 <=? hi)
  | None => false
  end.

Definition in_box_opt (b : option (Z * Z * Z * Z)) (x y : Z) : Prop :=
  match b with
  | Some (x0, y0, x1, y1) => x0 <= x <= x1 /\ y0 <= y <= y1
  | None => False
  end.

(** A rasteriser that never marks a pixel outside the box of the shape. *)
Definition raster_within_box {RA : Rasterizer} : Prop :=
  (forall xy filled width x y,
     ellipse_cover xy filled width x y = true ->
     in_box_opt (op_box (Ellipse xy None None width)) x y) /\
  (forall pts x y,
     polygon_cover pts x y = true -> in_box_opt (pts_box pts 0) x y) /\
  (forall pts width x y,
     line_cover pts width x y = true ->
     in_box_opt (pts_box pts (Z.max 0 width)) x y).

(** The polar point of every sampled angle and distance lies within 465
    pixels of the canvas centre on both axes, as it does when [cos] and
    [sin] stay within -1..1. *)
Definition polar_bounded {G : Type} {RNG : Random G} {LM : Libm} : Prop :=
  forall g angle g1 dist g2 c s px py,
    rng_uniform (Py.I 0) (Py.mul (Py.I 2) (Py.F math_pi)) g = (angle, g1) ->
    rng_uniform (Py.I 360) (Py.I 465) g1 = (dist, g2) ->
    math_cos (Py.F angle) = Some c ->
    Py.int (Py.add (Py.I CX) (Py.mul (Py.F dist) (Py.F c))) = Some px ->
    math_sin (Py.F angle) = Some s ->
    Py.int (Py.add (Py.I CY) (Py.mul (Py.F dist) (Py.F s))) = Some py ->
    CX - 465 <= px <= CX + 465 /\ CY - 465 <= py <= CY + 465.

(** A C library stand-in whose [pow] squares and for which every angle
    points along the x axis. *)
Definition square_libm : Libm := {|
  libm_cos := fun _ => PrimFloat.one;
  libm_sin := fun _ => PrimFloat.zero;
  libm_pow := fun x _ => PrimFloat.mul x x
|}.

(** ** Running the layers with a squaring [pow] *)

(** The radii of a glow loop, [range(rmax, 0, -2)]. *)
Definition glow_radii (rmax : Z) : list Z :=
  match Py.range rmax 0 (-2) with
  | Some l => l
  | None => []
  end.

(** The number a glow loop squares at radius [r]: [1 - r / rmax]. *)
Definition glow_base (rmax r : Z) : float :=
  Py.to_float
    (Py.sub (Py.I 1)
            (Py.F (PrimFloat.div (Py.float_of_Z r) (Py.float_of_Z rmax)))).

(** The 285 numbers the script squares: 220 in the background glow and 65
    in the chest glow. *)
Definition glow_bases : list float :=
  map (glow_base 440) (glow_radii 440) ++ map (glow_base 130) (glow_radii 130).

(** On each of them the C library's [pow] returns the correctly rounded
    square for the exponent 2. *)
Definition pow_squares_bases {LM : Libm} : Prop :=
  Forall (fun x => libm_pow x (Py.float_of_Z 2) = PrimFloat.mul x x)
         glow_bases.

(** The calls of layers 1 to 10 under the squaring stand-in, evaluated. *)
Definition fixed_calls : list draw_op :=
  Eval vm_compute in
    match calls_of (G:=unit) (fixed_layers (LM:=square_libm)) tt with
    | Some calls => calls
    | None => []
    end.

(** A colour that needs no clipping: four channels within 0..255. *)
Definition valid_rgba (c : list Z) : bool :=
  match c with
  | [r; g; b; a] =>
      forallb (fun v => (0 <=? v) && (v <=? 255)) [r; g; b; a]
  | _ => false
  end.

Definition valid_rgba_opt (c : option (list Z)) : bool :=
  match c with
  | Some col => valid_rgba col
  | None => true
  end.

Definition colours_valid (op : draw_op) : bool :=
  match op with
  | Ellipse _ fill outline _ => valid_rgba_opt fill && valid_rgba_opt outline
  | Polygon _ fill => valid_rgba fill
  | Line _ fill _ => valid_rgba fill
  end.

(** ** Gradients *)

Fixpoint non_decreasing (l : list Z) : bool :=
  match l with
  | a :: (b :: _) as l' => (a <=? b) && non_decreasing l'
  | _ => true
  end.

(** The box of the disc of radius [r] around [(cx, cy)]. *)
Definition disc_box (cx cy r : Z) : option (Z * Z * Z * Z) :=
  Some (cx - r, cy - r, cx + r, cy + r).

(** The call [circle(draw, cx, cy, r, colour)]. *)
Definition disc_call (cx cy r : Z) (colour : list Z) : draw_op :=
  Ellipse [cx - r; cy - r; cx + r; cy + r] (Some colour) None 1.

(** The falloff [top * (1 - r / rmax) ** 2] rounded down, computed without
    any rounding error: the floor of [top * (rmax - r)^2 / rmax^2]. *)
Definition falloff_exact (top rmax r : Z) : Z :=
  top * (rmax - r) ^ 2 / rmax ^ 2.

(** The alpha of the background glow at radius [r].  It is the exact
    falloff except at radius 352, where [25 * (1 - 0.8) ** 2] is exactly 1
    but comes out just below 1 in binary64, so that [int()] gives 0. *)
Definition background_alpha (r : Z) : Z :=
  if r =? 352 then 0 else falloff_exact 25 440 r.

(** The alpha of the chest glow at radius [r]: the exact falloff. *)
Definition chest_alpha (r : Z) : Z := falloff_exact 12 130 r.

(** ** The iris gradient *)

(** The colour of a filled disc. *)
Definition disc_colour (op : draw_op) : option (list Z) :=
  match op with
  | Ellipse _ (Some c) None _ => Some c
  | _ => None
  end.

(** [c] is at most [d] on every channel. *)
Definition channels_le (c d : list Z) : bool :=
  Nat.eqb (length c) (length d)
  && forallb (fun ab => fst ab <=? snd ab) (combine c d).

(** From each colour of the list to the next, no channel gets darker. *)
Fixpoint brightening (l : list (list Z)) : bool :=
  match l with
  | c :: (d :: _) as l' => channels_le c d && brightening l'
  | _ => true
  end.

(** The iris of the eye centred on [ex]: the thirty calls after the socket
    ring and the socket, among the 36 calls of an eye. *)
Definition iris_calls (eye : nat) (calls : list draw_op) : list draw_op :=
  firstn 30 (skipn (36 * eye + 2) calls).

(** An iris as the eye loop draws it: discs around [(ex, EYE_Y)] of radius
    30 down to 1, largest first, starting on [GOLD_DARK], every colour
    opaque and between [GOLD_DARK] and [GOLD_LIGHT] on every channel, never
    darker than the disc before, ending one short of [GOLD_LIGHT] on each
    colour channel. *)
Definition iris_gradient (ex : Z) (discs : list draw_op) : Prop :=
  exists radii colours,
    Py.range 30 0 (-1) = Some radii /\
    map op_box discs = map (disc_box ex EYE_Y) radii /\
    mapM disc_colour discs = Some colours /\
    length colours = 30%nat /\
    hd_error colours = Some GOLD_DARK /\
    last colours [] = [239; 209; 149; 255] /\
    forallb (fun c => channels_le GOLD_DARK c && channels_le c GOLD_LIGHT)
            colours = true /\
    brightening colours = true.

(** ** Paths in the decorative graphs *)

(** The nodes that can be reached from node 0 along connections, each
    followed from its first to its second index. *)
Inductive reachable (edges : list (Z * Z)) : Z -> Prop :=
| reachable_root : reachable edges 0
| reachable_step a b :
    reachable edges a -> In (a, b) edges -> reachable edges b.

(** The layer of a chest node, by the index ranges of the node loop. *)
Definition node_layer (i : Z) : Z :=
  if i =? 0 then 0
  else if i <=? 3 then 1
  else if i <=? 7 then 2
  else if i <=? 12 then 3
  else 4.

(* ================================================================== *)
(** * Theorems *)
(* ================================================================== *)

(** ** Python indexing and [mapM] *)

Lemma index_of_nat {A : Type} (l : list A) (k : nat) :
  (k < length l)%nat -> Py.index l (Z.of_nat k) = nth_error l k.
Proof.
  intros Hk. unfold Py.index.
  replace (0 <=? Z.of_nat k) with true by (symmetry; apply Z.leb_le; lia).
  replace (Z.of_nat k <? Z.of_nat (length l)) with true
    by (symmetry; apply Z.ltb_lt; lia).
  cbn [andb]. now rewrite Nat2Z.id.
Qed.

Lemma mapM_tabulate {A : Type} (f : Z -> option A) (l : list A) (s : nat) :
  (forall k, (k < length l)%nat -> f (Z.of_nat (s + k)) = nth_error l k) ->
  mapM f (map Z.of_nat (seq s (length l))) = Some l.
Proof.
  revert s. induction l as [|a l IH]; intros s Hf; [reflexivity|].
  cbn [length seq map mapM].
  pose proof (Hf 0%nat) as H0. rewrite Nat.add_0_r in H0.
  rewrite H0 by (cbn; lia). cbn [nth_error obind].
  rewrite IH; [reflexivity|].
  intros k Hk. replace (S s + k)%nat with (s + S k)%nat by lia.
  rewrite (Hf (S k)) by (cbn; lia). reflexivity.
Qed.

(** ** [lerp] at its endpoints *)

Lemma lerp_pointwise (c1 c2 out : list Z) (t : Py.num) :
  length c1 = length c2 -> length out = length c1 ->
  (forall k a b, nth_error c1 k = Some a -> nth_error c2 k = Some b ->
     exists o, nth_error out k = Some o /\
               Py.int (Py.add (Py.I a) (Py.mul (Py.I (b - a)) t)) = Some o) ->
  lerp c1 c2 t = Some out.
Proof.
  intros Hlen Hout Hch. unfold lerp. rewrite <- Hout.
  apply mapM_tabulate. intros k Hk. cbn [Nat.add].
  unfold lerp_channel.
  rewrite !index_of_nat by lia.
  destruct (nth_error c1 k) as [a|] eqn:Ea;
    [|apply nth_error_None in Ea; lia].
  destruct (nth_error c2 k) as [b|] eqn:Eb;
    [|apply nth_error_None in Eb; lia].
  cbn [obind].
  destruct (Hch k a b Ea Eb) as (o & Ho & Hv). now rewrite Hv, Ho.
Qed.

Lemma bytes_complete (z : Z) : is_byte z -> In z bytes.
Proof.
  intros [Hlo Hhi]. unfold bytes.
  rewrite <- (Z2Nat.id z) by lia. apply in_map, in_seq. lia.
Qed.

Lemma endpoints_row_nth (fa : float) (fds fbs : list float) (j : nat)
    (fd fb : float) :
  endpoints_row fa fds fbs = true ->
  nth_error fds j = Some fd -> nth_error fbs j = Some fb ->
  PrimFloat.add fa (PrimFloat.mul fd PrimFloat.zero) = fa /\
  PrimFloat.add fa (PrimFloat.mul fd PrimFloat.one) = fb.
Proof.
  revert fbs j. induction fds as [|d fds IH]; intros fbs j Hrow Hd Hb.
  - destruct j; discriminate.
  - destruct fbs as [|b fbs]; [destruct j; discriminate|].
    cbn [endpoints_row] in Hrow.
    apply andb_prop in Hrow. destruct Hrow as [Hrow Hrest].
    apply andb_prop in Hrow. destruct Hrow as [H0 H1].
    destruct j as [|j].
    + cbn in Hd, Hb. injection Hd as <-. injection Hb as <-.
      split; apply FloatAxioms.Leibniz.eqb_spec; assumption.
    + cbn in Hd, Hb. eapply IH; eassumption.
Qed.

Lemma endpoints_table_ok : endpoints_table = true.
Proof. vm_compute. reflexivity. Qed.

Lemma byte_roundtrip_ok : forallb byte_roundtrip bytes = true.
Proof. vm_compute. reflexivity. Qed.

Lemma byte_floats_nth (b : Z) :
  is_byte b ->
  nth_error byte_floats (Z.to_nat b) = Some (Py.float_of_Z b).
Proof.
  intros [Hlo Hhi]. unfold byte_floats, bytes.
  rewrite !nth_error_map, nth_error_seq.
  replace (Z.to_nat b <? 256)%nat with true
    by (symmetry; apply Nat.ltb_lt; lia).
  cbn. now rewrite Z2Nat.id by lia.
Qed.

Lemma diff_floats_nth (a b : Z) :
  is_byte a -> is_byte b ->
  nth_error (skipn (255 - Z.to_nat a) diff_floats) (Z.to_nat b)
  = Some (Py.float_of_Z (b - a)).
Proof.
  intros [Ha0 Ha1] [Hb0 Hb1]. unfold diff_floats.
  rewrite nth_error_skipn, nth_error_map, nth_error_seq.
  replace (255 - Z.to_nat a + Z.to_nat b <? 511)%nat with true
    by (symmetry; apply Nat.ltb_lt; lia).
  cbn [option_map Nat.add]. do 2 f_equal. lia.
Qed.

Lemma float_endpoints_of_bytes (a b : Z) :
  is_byte a -> is_byte b ->
  Py.int (Py.add (Py.I a) (Py.mul (Py.I (b - a)) (Py.F PrimFloat.zero)))
    = Some a /\
  Py.int (Py.add (Py.I a) (Py.mul (Py.I (b - a)) (Py.F PrimFloat.one)))
    = Some b.
Proof.
  intros Ha Hb.
  assert (Hint : forall c, is_byte c ->
            Py.int_of_float (Py.float_of_Z c) = Some c).
  { intros c Hc. pose proof byte_roundtrip_ok as Hall.
    rewrite forallb_forall in Hall.
    specialize (Hall c (bytes_complete c Hc)). unfold byte_roundtrip in Hall.
    destruct (Py.int_of_float (Py.float_of_Z c)) as [v|]; [|discriminate].
    apply Z.eqb_eq in Hall. now subst. }
  pose proof endpoints_table_ok as Htab. unfold endpoints_table in Htab.
  rewrite forallb_forall in Htab.
  assert (Hin : In (Z.to_nat a) (seq 0 256))
    by (apply in_seq; destruct Ha; lia).
  specialize (Htab _ Hin).
  rewrite (nth_error_nth _ _ _ (byte_floats_nth a Ha)) in Htab.
  destruct (endpoints_row_nth _ _ _ _ _ _ Htab
              (diff_floats_nth a b Ha Hb) (byte_floats_nth b Hb))
    as [H0 H1].
  cbn [Py.int Py.add Py.mul Py.to_float].
  rewrite H0, H1. split; apply Hint; assumption.
Qed.

(** C9. [lerp] returns its first colour at [t = 0] and its second colour at
    [t = 1], channel by channel and with nothing lost to the [int()]
    truncation: for all integer tuples of equal length when [t] is the int
    0 or 1, and for all tuples of 8-bit channels of equal length when [t] is
    the float 0.0 or 1.0. *)
Theorem lerp_endpoints (c1 c2 : list Z) (Hlen : length c1 = length c2) :
  lerp c1 c2 (Py.I 0) = Some c1 /\
  lerp c1 c2 (Py.I 1) = Some c2 /\
  (Forall is_byte c1 -> Forall is_byte c2 ->
   lerp c1 c2 (Py.F PrimFloat.zero) = Some c1 /\
   lerp c1 c2 (Py.F PrimFloat.one) = Some c2).
Proof.
  split; [|split; [|intros H1 H2; split]].
  - apply lerp_pointwise; auto. intros k a b Ha Hb.
    exists a. split; [assumption|]. cbn. f_equal. lia.
  - apply lerp_pointwise; auto. intros k a b Ha Hb.
    exists b. split; [assumption|]. cbn. f_equal. lia.
  - apply lerp_pointwise; auto. intros k a b Ha Hb.
    exists a. split; [assumption|].
    rewrite Forall_forall in H1, H2.
    apply float_endpoints_of_bytes;
      [apply H1; eapply nth_error_In; eassumption
      |apply H2; eapply nth_error_In; eassumption].
  - apply lerp_pointwise; auto. intros k a b Ha Hb.
    exists b. split; [assumption|].
    rewrite Forall_forall in H1, H2.
    apply float_endpoints_of_bytes;
      [apply H1; eapply nth_error_In; eassumption
      |apply H2; eapply nth_error_In; eassumption].
Qed.

Lemma lerp_endpoints_witness :
  lerp GOLD_LIGHT GOLD_DARK (Py.I 0) = Some GOLD_LIGHT /\
  lerp GOLD_LIGHT GOLD_DARK (Py.I 1) = Some GOLD_DARK /\
  lerp GOLD_LIGHT GOLD_DARK (Py.F PrimFloat.zero) = Some GOLD_LIGHT /\
  lerp GOLD_LIGHT GOLD_DARK (Py.F PrimFloat.one) = Some GOLD_DARK.
Proof.
  destruct (lerp_endpoints GOLD_LIGHT GOLD_DARK eq_refl) as (H0 & H1 & HF).
  destruct HF as [H2 H3];
    [repeat constructor; unfold is_byte; lia
    |repeat constructor; unfold is_byte; lia
    |].
  repeat split; assumption.
Defined.

(** The bound on the channels matters on the float path only: beyond 2^53
    the conversion of a channel to binary64 rounds, while the int path stays
    exact. *)
Example lerp_float_endpoint_beyond_2_53 :
  lerp [2 ^ 53 + 1] [0] (Py.F PrimFloat.zero) = Some [2 ^ 53] /\
  lerp [2 ^ 53 + 1] [0] (Py.I 0) = Some [2 ^ 53 + 1].
Proof. split; vm_compute; reflexivity. Qed.

(** ** The two decorative graphs *)

Ltac valid_pairs :=
  repeat (constructor;
          [unfold valid_pair; cbn [fst snd length];
           repeat split; try lia; eexists; vm_compute; reflexivity|]);
  constructor.

Lemma conns_valid : Forall (valid_pair nodes) conns.
Proof. unfold conns. valid_pairs. Qed.

Lemma h_conns_valid : Forall (valid_pair h_nodes) h_conns.
Proof. unfold h_conns. valid_pairs. Qed.

(** C8. The chest pattern has 17 nodes and the head pattern 8, and both
    members of every pair of [conns] and of [h_conns] are in-range indices of
    their node list, on which the lookup succeeds. *)
Theorem pattern_graphs_well_formed :
  length nodes = 17%nat /\
  length h_nodes = 8%nat /\
  Forall (valid_pair nodes) conns /\
  Forall (valid_pair h_nodes) h_conns.
Proof.
  split; [reflexivity|]. split; [reflexivity|].
  split; [apply conns_valid | apply h_conns_valid].
Qed.

(** ** Tiers of the chest nodes *)

Section NodeTiers.

Context {G : Type}.

Lemma draw_node_root (g : G) (nx ny : Z) :
  calls_of (draw_node 0 nx ny) g = Some (tier_calls tier_root nx ny).
Proof. reflexivity. Qed.

Lemma draw_node_outermost (g : G) (i nx ny : Z) :
  13 <= i ->
  calls_of (draw_node i nx ny) g = Some (tier_calls tier_outermost nx ny).
Proof.
  intros Hi. unfold draw_node.
  replace (i =? 0) with false by (symmetry; apply Z.eqb_neq; lia).
  replace (i <=? 3) with false by (symmetry; apply Z.leb_gt; lia).
  replace (i <=? 7) with false by (symmetry; apply Z.leb_gt; lia).
  replace (i <=? 12) with false by (symmetry; apply Z.leb_gt; lia).
  reflexivity.
Qed.

End NodeTiers.

(** C6. The node loop draws the root (index 0) with the row
    (12, 60, 7, 220, 4) of the tier table and every node of index 13 or more
    with the row (6, 35, 4, 140, 2); the core circle is the second of the
    three circles, and the root's core radius, 7, is at least the outermost
    tier's, 4. *)
Theorem root_core_radius_dominates {G : Type} (g : G) (i nx ny : Z)
    (Hi : 13 <= i) :
  calls_of (draw_node 0 nx ny) g = Some (tier_calls tier_root nx ny) /\
  calls_of (draw_node i nx ny) g = Some (tier_calls tier_outermost nx ny) /\
  nth_error (tier_calls tier_root nx ny) 1
    = Some (Ellipse [nx - core_radius tier_root; ny - core_radius tier_root;
                     nx + core_radius tier_root; ny + core_radius tier_root]
                    (Some [212; 168; 83; 220]) None 1) /\
  nth_error (tier_calls tier_outermost nx ny) 1
    = Some (Ellipse [nx - core_radius tier_outermost;
                     ny - core_radius tier_outermost;
                     nx + core_radius tier_outermost;
                     ny + core_radius tier_outermost]
                    (Some [212; 168; 83; 140]) None 1) /\
  core_radius tier_outermost <= core_radius tier_root.
Proof.
  split; [apply draw_node_root|].
  split; [apply draw_node_outermost; assumption|].
  split; [reflexivity|]. split; [reflexivity|].
  cbn. lia.
Qed.

Lemma root_core_radius_dominates_witness :
  calls_of (draw_node 0 442 712) tt
    = Some (tier_calls tier_root 442 712) /\
  calls_of (draw_node 13 442 712) tt
    = Some (tier_calls tier_outermost 442 712) /\
  core_radius tier_outermost <= core_radius tier_root.
Proof.
  assert (H13 : 13 <= 13) by lia.
  destruct (root_core_radius_dominates tt 13 442 712 H13)
    as (H0 & Hi & _ & _ & Hle).
  repeat split; assumption.
Defined.

(** ** Passes of the line renderings *)

Section LinePasses.

Context {G : Type}.

Lemma draw_connection_calls (g : G) (ab : Z * Z) (x1 y1 x2 y2 ba : Z) :
  conn_endpoints ab = Some (x1, y1, x2, y2) ->
  connection_base_alpha x1 y1 x2 y2 = Some ba ->
  calls_of (draw_connection (fst ab) (snd ab)) g
  = Some [Line [(x1, y1); (x2, y2)] [212; 168; 83; ba / 3] 7;
          Line [(x1, y1); (x2, y2)] [212; 168; 83; ba / 2] 4;
          Line [(x1, y1); (x2, y2)] [212; 168; 83; ba] 2;
          Line [(x1, y1); (x2, y2)] [240; 210; 150; ba / 2] 1].
Proof.
  unfold conn_endpoints. intros He Hba.
  destruct (Py.index nodes (fst ab)) as [p1|] eqn:E1; [|discriminate].
  destruct (Py.index nodes (snd ab)) as [p2|] eqn:E2; [|discriminate].
  cbn [obind] in He. injection He as <- <- <- <-.
  unfold calls_of, draw_connection, bind, lift.
  rewrite E1, E2, Hba. reflexivity.
Qed.

Lemma draw_head_connection_calls (g : G) (a b : Z) (p1 p2 : Z * Z) :
  Py.index h_nodes a = Some p1 ->
  Py.index h_nodes b = Some p2 ->
  calls_of (draw_head_connection a b) g
  = Some [Line [(fst p1, snd p1); (fst p2, snd p2)] [212; 168; 83; 30] 5;
          Line [(fst p1, snd p1); (fst p2, snd p2)] [212; 168; 83; 70] 2;
          Line [(fst p1, snd p1); (fst p2, snd p2)] [240; 210; 150; 35] 1].
Proof.
  intros E1 E2. unfold calls_of, draw_head_connection, bind, lift.
  rewrite E1, E2. reflexivity.
Qed.

Lemma aa_line_calls (g : G) (x1 y1 x2 y2 r gr b a w : Z) :
  calls_of (aa_line x1 y1 x2 y2 [r; gr; b; a] w) g
  = Some [Line [(x1, y1); (x2, y2)] [r; gr; b; Z.max 10 (a / 4)] (w + 3);
          Line [(x1, y1); (x2, y2)] [r; gr; b; a] w].
Proof. reflexivity. Qed.

End LinePasses.

Lemma line_alpha_rgba (pts : list (Z * Z)) (r g b a w : Z) :
  line_alpha (Line pts [r; g; b; a] w) = Some a.
Proof. reflexivity. Qed.

(** Reduces a layering check on explicit passes to its integer comparisons. *)
Ltac layering_comparisons :=
  unfold glow_as_drawn;
  cbn [mapM line_points line_width obind];
  rewrite !line_alpha_rgba;
  cbv -[Z.div Z.max Z.ltb Z.eqb Z.add Z.sub];
  rewrite ?Z.eqb_refl.

Ltac ltb_true H := apply Z.ltb_lt in H; rewrite ?H.

Lemma connection_passes_layered (x1 y1 x2 y2 ba : Z) :
  4 <= ba ->
  glow_as_drawn 4 3
    [Line [(x1, y1); (x2, y2)] [212; 168; 83; ba / 3] 7;
     Line [(x1, y1); (x2, y2)] [212; 168; 83; ba / 2] 4;
     Line [(x1, y1); (x2, y2)] [212; 168; 83; ba] 2;
     Line [(x1, y1); (x2, y2)] [240; 210; 150; ba / 2] 1] = true.
Proof.
  intros Hba. layering_comparisons.
  assert (H1 : ba / 3 < ba / 2) by (Z.to_euclidean_division_equations; lia).
  assert (H2 : ba / 2 < ba) by (Z.to_euclidean_division_equations; lia).
  ltb_true H1. ltb_true H2. reflexivity.
Qed.

Lemma head_passes_layered (x1 y1 x2 y2 : Z) :
  glow_as_drawn 3 2
    [Line [(x1, y1); (x2, y2)] [212; 168; 83; 30] 5;
     Line [(x1, y1); (x2, y2)] [212; 168; 83; 70] 2;
     Line [(x1, y1); (x2, y2)] [240; 210; 150; 35] 1] = true.
Proof. layering_comparisons. reflexivity. Qed.

Lemma aa_line_passes_layered (x1 y1 x2 y2 r gr b a w : Z) :
  10 < a ->
  glow_as_drawn 2 2
    [Line [(x1, y1); (x2, y2)] [r; gr; b; Z.max 10 (a / 4)] (w + 3);
     Line [(x1, y1); (x2, y2)] [r; gr; b; a] w] = true.
Proof.
  intros Ha. layering_comparisons.
  assert (H1 : w < w + 3) by lia.
  assert (H2 : Z.max 10 (a / 4) < a)
    by (Z.to_euclidean_division_equations; lia).
  ltb_true H1. ltb_true H2. reflexivity.
Qed.

(** ** The alpha of the chest connections *)

Lemma conns_checked : forallb conn_alpha_checked conns = true.
Proof. vm_compute. reflexivity. Qed.

Lemma conn_checked (ab : Z * Z) :
  In ab conns ->
  exists x1 y1 x2 y2 ba,
    conn_endpoints ab = Some (x1, y1, x2, y2) /\
    conn_dist2 ab = (x2 - x1) ^ 2 + (y2 - y1) ^ 2 /\
    connection_base_alpha x1 y1 x2 y2 = Some ba /\
    conn_alpha ab = Some ba /\
    alpha_matches (conn_dist2 ab) ba = true.
Proof.
  intros Hin. pose proof conns_checked as Hall.
  rewrite forallb_forall in Hall. specialize (Hall ab Hin).
  unfold conn_alpha_checked in Hall.
  destruct (conn_alpha ab) as [ba|] eqn:Ea; [|discriminate].
  unfold conn_alpha in Ea. unfold conn_dist2 in *.
  destruct (conn_endpoints ab) as [[[[x1 y1] x2] y2]|] eqn:Ee; [|discriminate].
  cbn [obind] in Ea.
  exists x1, y1, x2, y2, ba. repeat split; assumption.
Qed.

Section RealAlpha.

Local Open Scope R_scope.

Lemma sqrt_IZR_square (n : Z) : (0 <= n)%Z -> sqrt (IZR (n ^ 2)) = IZR n.
Proof.
  intros Hn. replace (n ^ 2)%Z with (n * n)%Z by ring.
  rewrite mult_IZR. apply sqrt_square. now apply IZR_le in Hn.
Qed.

Lemma sqrt_IZR_between (d2 lo hi : Z) :
  (0 <= lo)%Z -> (0 <= hi)%Z -> (lo ^ 2 < d2 <= hi ^ 2)%Z ->
  IZR lo < sqrt (IZR d2) <= IZR hi.
Proof.
  intros Hlo Hhi [H1 H2]. split.
  - rewrite <- (sqrt_IZR_square lo Hlo). apply sqrt_lt_1_alt. split.
    + apply IZR_le. apply Z.pow_nonneg. assumption.
    + now apply IZR_lt.
  - rewrite <- (sqrt_IZR_square hi Hhi). apply sqrt_le_1_alt.
    now apply IZR_le.
Qed.

Lemma spec_base_alpha_floor (d2 k : Z) :
  (0 <= k <= 49)%Z ->
  ((4 * (49 - k)) ^ 2 < d2 <= (4 * (50 - k)) ^ 2)%Z ->
  spec_base_alpha (sqrt (IZR d2)) = (100 + k)%Z.
Proof.
  intros Hk Hd.
  destruct (sqrt_IZR_between d2 (4 * (49 - k)) (4 * (50 - k))) as [Hlo Hhi];
    try lia.
  rewrite mult_IZR, minus_IZR in Hlo, Hhi.
  assert (Hk0 : 0 <= IZR k) by (apply IZR_le; lia).
  assert (Hk1 : IZR k <= 49) by (apply IZR_le; lia).
  unfold spec_base_alpha. f_equal. symmetry. apply Int_part_spec.
  rewrite Rmin_left by lra. lra.
Qed.

Lemma Int_part_le (x y : R) : x <= y -> (Int_part x <= Int_part y)%Z.
Proof.
  intros Hxy.
  destruct (base_Int_part x) as [Hx _], (base_Int_part y) as [_ Hy].
  apply Z.lt_succ_r, lt_IZR. rewrite succ_IZR. lra.
Qed.

Lemma spec_base_alpha_antitone (d d' : R) :
  d <= d' -> (spec_base_alpha d' <= spec_base_alpha d)%Z.
Proof.
  intros Hd. unfold spec_base_alpha.
  apply Z.add_le_mono_l, Int_part_le.
  assert (Rmin (d / 200) 1 <= Rmin (d' / 200) 1)
    by (unfold Rmin; repeat destruct Rle_dec; lra).
  lra.
Qed.

End RealAlpha.

Lemma conn_alpha_is_spec (ab : Z * Z) :
  In ab conns ->
  exists ba, conn_alpha ab = Some ba /\ ba = spec_base_alpha (conn_dist ab).
Proof.
  intros Hin.
  destruct (conn_checked ab Hin) as (x1 & y1 & x2 & y2 & ba & _ & _ & _ & Ha & Hm).
  exists ba. split; [assumption|].
  unfold alpha_matches in Hm.
  repeat (apply andb_prop in Hm; destruct Hm as [Hm ?]).
  apply Z.leb_le in Hm, H1, H. apply Z.ltb_lt in H0.
  unfold conn_dist.
  rewrite (spec_base_alpha_floor (conn_dist2 ab) (ba - 100)); lia.
Qed.

(** C1. For every connection of the chest pattern the script's base alpha,
    which is the alpha of the main line it renders, equals
    [100 + floor(50 * (1 - min(dist / 200, 1)))] with [dist] the Euclidean
    distance between the two node coordinates; and of two connections the
    one that is not longer never has the smaller base alpha. *)
Theorem connection_alpha_formula {G : Type} (g : G) (ab ab' : Z * Z)
    (Hab : In ab conns) (Hab' : In ab' conns)
    (Hdist : (conn_dist ab <= conn_dist ab')%R) :
  Forall (fun c =>
    exists x1 y1 x2 y2 ba,
      conn_endpoints c = Some (x1, y1, x2, y2) /\
      conn_dist c = sqrt (IZR ((x2 - x1) ^ 2 + (y2 - y1) ^ 2)) /\
      connection_base_alpha x1 y1 x2 y2 = Some ba /\
      ba = spec_base_alpha (conn_dist c) /\
      obind (calls_of (draw_connection (fst c) (snd c)) g)
            (fun calls => nth_error calls 2)
      = Some (Line [(x1, y1); (x2, y2)] [212; 168; 83; ba] 2)) conns /\
  exists ba ba',
    conn_alpha ab = Some ba /\ conn_alpha ab' = Some ba' /\ ba' <= ba.
Proof.
  split.
  - apply Forall_forall. intros c Hc.
    destruct (conn_checked c Hc)
      as (x1 & y1 & x2 & y2 & ba & He & Hd2 & Hba & Ha & _).
    destruct (conn_alpha_is_spec c Hc) as (ba0 & Ha0 & Hspec).
    rewrite Ha in Ha0. injection Ha0 as <-.
    exists x1, y1, x2, y2, ba. split; [assumption|].
    split; [unfold conn_dist; now rewrite Hd2|].
    split; [assumption|]. split; [assumption|].
    rewrite (draw_connection_calls g c x1 y1 x2 y2 ba He Hba). reflexivity.
  - destruct (conn_alpha_is_spec ab Hab) as (ba & Ha & Hs).
    destruct (conn_alpha_is_spec ab' Hab') as (ba' & Ha' & Hs').
    exists ba, ba'. split; [assumption|]. split; [assumption|].
    subst ba ba'. now apply spec_base_alpha_antitone.
Qed.

Lemma connection_alpha_formula_witness :
  exists ba ba',
    conn_alpha (1, 3) = Some ba /\ conn_alpha (0, 1) = Some ba' /\ ba' <= ba.
Proof.
  assert (H13 : In (1, 3) conns) by (vm_compute; tauto).
  assert (H01 : In (0, 1) conns) by (vm_compute; tauto).
  assert (Hd : Rle (conn_dist (1, 3)) (conn_dist (0, 1))).
  { unfold conn_dist. apply sqrt_le_1_alt, IZR_le. vm_compute. discriminate. }
  exact (proj2 (connection_alpha_formula tt (1, 3) (0, 1) H13 H01 Hd)).
Defined.

(** C10. For every connection of the chest pattern the base alpha lies in
    100..150, and the alphas of its four drawing passes
    ([base_alpha // 3], [base_alpha // 2], [base_alpha], [base_alpha // 2])
    all lie in 0..150, hence in the 8-bit range. *)
Theorem connection_alpha_in_range {G : Type} (g : G) :
  Forall (fun c =>
    exists ba calls,
      conn_alpha c = Some ba /\
      100 <= ba <= 150 /\
      calls_of (draw_connection (fst c) (snd c)) g = Some calls /\
      mapM line_alpha calls = Some [ba / 3; ba / 2; ba; ba / 2] /\
      Forall (fun a => 0 <= a <= 150 /\ 0 <= a <= 255)
             [ba / 3; ba / 2; ba; ba / 2]) conns.
Proof.
  apply Forall_forall. intros c Hc.
  destruct (conn_checked c Hc)
    as (x1 & y1 & x2 & y2 & ba & He & _ & Hba & Ha & Hm).
  unfold alpha_matches in Hm.
  repeat (apply andb_prop in Hm; destruct Hm as [Hm ?]).
  apply Z.leb_le in Hm, H1.
  exists ba. eexists. split; [assumption|]. split; [lia|].
  split; [apply (draw_connection_calls g c x1 y1 x2 y2 ba He Hba)|].
  split; [reflexivity|].
  repeat constructor; Z.to_euclidean_division_equations; lia.
Qed.

(** ** Layering of the line renderings *)

(** C3, as drawn.  Each line rendering strokes one segment several times,
    back to front, with strictly decreasing widths: four passes for a chest
    connection, three for a head connection, two in [aa_line].  The alpha
    rises strictly from pass to pass up to the main line (for [aa_line],
    when the colour's alpha exceeds 10); the bright core that the chest and
    head connections draw last, one pixel wide, has a lower alpha than the
    main line beneath it. *)
Theorem glow_passes_as_drawn {G : Type} (g : G)
    (x1 y1 x2 y2 r gr b a w : Z) (Ha : 10 < a) :
  Forall (fun c =>
    exists calls,
      calls_of (draw_connection (fst c) (snd c)) g = Some calls /\
      mapM line_width calls = Some [7; 4; 2; 1] /\
      glow_as_drawn 4 3 calls = true) conns /\
  Forall (fun c =>
    exists calls,
      calls_of (draw_head_connection (fst c) (snd c)) g = Some calls /\
      mapM line_width calls = Some [5; 2; 1] /\
      mapM line_alpha calls = Some [30; 70; 35] /\
      glow_as_drawn 3 2 calls = true) h_conns /\
  exists calls,
    calls_of (aa_line x1 y1 x2 y2 [r; gr; b; a] w) g = Some calls /\
    mapM line_width calls = Some [w + 3; w] /\
    mapM line_alpha calls = Some [Z.max 10 (a / 4); a] /\
    glow_as_drawn 2 2 calls = true.
Proof.
  split; [|split].
  - apply Forall_forall. intros c Hc.
    destruct (conn_checked c Hc)
      as (p1 & q1 & p2 & q2 & ba & He & _ & Hba & _ & Hm).
    unfold alpha_matches in Hm.
    repeat (apply andb_prop in Hm; destruct Hm as [Hm ?]).
    apply Z.leb_le in Hm.
    eexists. split; [apply (draw_connection_calls g c _ _ _ _ _ He Hba)|].
    split; [reflexivity|]. apply connection_passes_layered. lia.
  - pose proof h_conns_valid as Hh.
    rewrite Forall_forall in Hh. apply Forall_forall. intros c Hc.
    destruct (Hh c Hc) as (_ & _ & [p Hp] & [q Hq]).
    eexists. split; [apply (draw_head_connection_calls g _ _ _ _ Hp Hq)|].
    split; [reflexivity|]. split; [reflexivity|].
    apply head_passes_layered.
  - eexists. split; [apply aa_line_calls|].
    split; [reflexivity|]. split; [reflexivity|].
    now apply aa_line_passes_layered.
Qed.

Lemma glow_passes_as_drawn_witness :
  exists calls,
    calls_of (aa_line 512 512 477 557 [212; 168; 83; 70] 2) tt = Some calls /\
    mapM line_width calls = Some [5; 2] /\
    mapM line_alpha calls = Some [17; 70] /\
    glow_as_drawn 2 2 calls = true.
Proof.
  assert (Ha : 10 < 70) by lia.
  exact (proj2 (proj2
    (glow_passes_as_drawn tt 512 512 477 557 212 168 83 70 2 Ha))).
Defined.

(** C3, as specified, fails on the first chest connection: its four passes
    carry the alphas 45, 67, 135, 67, so the alpha falls on the last pass. *)
Lemma glow_alpha_falls_on_core_pass :
  calls_of (draw_connection 0 1) tt
  = Some [Line [(512, 512); (477, 557)] [212; 168; 83; 45] 7;
          Line [(512, 512); (477, 557)] [212; 168; 83; 67] 4;
          Line [(512, 512); (477, 557)] [212; 168; 83; 135] 2;
          Line [(512, 512); (477, 557)] [240; 210; 150; 67] 1] /\
  glow_as_specified
    [Line [(512, 512); (477, 557)] [212; 168; 83; 45] 7;
     Line [(512, 512); (477, 557)] [212; 168; 83; 67] 4;
     Line [(512, 512); (477, 557)] [212; 168; 83; 135] 2;
     Line [(512, 512); (477, 557)] [240; 210; 150; 67] 1] = false.
Proof. split; vm_compute; reflexivity. Qed.

(** The head connections show the same fall (30, 70, then 35), and
    [aa_line] has two passes only; with a colour alpha of 10 or less its
    glow, floored at 10, is no fainter than the main line. *)
Example head_alpha_falls_on_core_pass :
  calls_of (draw_head_connection 0 1) tt
  = Some [Line [(512, 217); (477, 232)] [212; 168; 83; 30] 5;
          Line [(512, 217); (477, 232)] [212; 168; 83; 70] 2;
          Line [(512, 217); (477, 232)] [240; 210; 150; 35] 1].
Proof. vm_compute. reflexivity. Qed.

Example aa_line_glow_floor :
  calls_of (aa_line 0 0 10 10 [212; 168; 83; 8] 2) tt
  = Some [Line [(0, 0); (10, 10)] [212; 168; 83; 10] 5;
          Line [(0, 0); (10, 10)] [212; 168; 83; 8] 2].
Proof. vm_compute. reflexivity. Qed.

(** ** The canvas and the SAVE section *)

Lemma composite_over_opaque (r g b : Z) (src : rgba) :
  alpha (composite_px (mk_rgba r g b 255) src) = 255.
Proof.
  unfold composite_px. destruct (alpha src =? 0); [reflexivity|].
  cbn [alpha].
  replace (alpha src * 255 + 255 * (255 - alpha src)) with 65025 by ring.
  reflexivity.
Qed.

Section PipelineFacts.

Context {G : Type} {RNG : Random G} {LM : Libm} {RA : Rasterizer}
        {FS : FileSystem}.

Lemma paint_opt_size (cover : Z -> Z -> bool) (ink : option rgba)
    (im : image rgba) :
  im_size (paint_opt cover ink im) = im_size im.
Proof. destruct ink; reflexivity. Qed.

Lemma render_op_size (op : draw_op) (im im' : image rgba) :
  render_op op im = Some im' -> im_size im' = im_size im.
Proof.
  destruct op as [xy fill outline width|pts fill|pts fill width];
    cbn [render_op].
  - destruct (getink outline fill) as [[ink fill_ink]|]; [|discriminate].
    destruct (ink_eqb ink fill_ink || (width =? 0)); intros [= <-];
      now rewrite ?paint_opt_size.
  - destruct (draw_ink fill); [|discriminate]. now intros [= <-].
  - destruct (draw_ink fill); [|discriminate]. now intros [= <-].
Qed.

Lemma render_size (ops : list draw_op) (im im' : image rgba) :
  render ops im = Some im' -> im_size im' = im_size im.
Proof.
  revert im. induction ops as [|op ops IH]; intros im; cbn [render].
  - now intros [= <-].
  - destruct (render_op op im) as [im1|] eqn:E1; [|discriminate].
    intros E2. apply IH in E2. apply render_op_size in E1. congruence.
Qed.

Lemma canvas_size (g : G) (img : image rgba) :
  canvas g = Some img -> im_size img = (1024, 1024).
Proof.
  unfold canvas. cbn [Image_new SIZE BG_DARK draw_ink Z.ltb orb obind].
  change (Image_new SIZE SIZE BG_DARK)
    with (Some (mk_image 1024 1024 (fun _ _ => mk_rgba 10 10 13 255))).
  cbn [obind].
  destruct (calls_of script g) as [calls|]; [|discriminate].
  cbn [obind]. intros Hr. apply render_size in Hr. exact Hr.
Qed.

Lemma save_outputs_inv (img : image rgba) (out_rgb : image rgb)
    (out_rgba : image rgba) :
  save_outputs img = Some (out_rgb, out_rgba) ->
  out_rgba = mk_image 1024 1024
               (fun x y => composite_px (mk_rgba 10 10 13 255) (im_px img x y))
  /\ out_rgb = convert_RGB out_rgba.
Proof.
  unfold save_outputs.
  change (Image_new SIZE SIZE BG_DARK)
    with (Some (mk_image 1024 1024 (fun _ _ => mk_rgba 10 10 13 255))).
  cbn [obind]. unfold alpha_composite. cbn [im_width im_height im_px].
  destruct ((1024 =? im_width img) && (1024 =? im_height img));
    [|discriminate].
  cbn [obind]. unfold Image_save.
  destruct (fs_writable output_path); [|discriminate].
  destruct (fs_writable rgba_path); [|discriminate].
  cbn [obind]. intros [= <- <-]. split; reflexivity.
Qed.

Lemma main_inv (g : G) (out_rgb : image rgb) (out_rgba : image rgba) :
  main g = Some (out_rgb, out_rgba) ->
  exists img,
    canvas g = Some img /\
    im_size img = (1024, 1024) /\
    out_rgba = mk_image 1024 1024
                 (fun x y => composite_px (mk_rgba 10 10 13 255)
                                          (im_px img x y)) /\
    out_rgb = convert_RGB out_rgba.
Proof.
  unfold main. destruct (canvas g) as [img|] eqn:Ec; [|discriminate].
  cbn [obind]. intros Hs. apply save_outputs_inv in Hs.
  exists img. split; [reflexivity|]. split; [now apply (canvas_size g)|].
  exact Hs.
Qed.

Lemma main_alpha_opaque (g : G) (out_rgb : image rgb) (out_rgba : image rgba)
    (x y : Z) :
  main g = Some (out_rgb, out_rgba) -> alpha (im_px out_rgba x y) = 255.
Proof.
  intros Hm. destruct (main_inv g _ _ Hm) as (img & _ & _ & -> & _).
  cbn [im_px]. apply composite_over_opaque.
Qed.

(** [random.seed(42)] is the first statement: whatever the generator held
    when the process started is overwritten before anything reads it. *)
Lemma script_from_seed (g1 g2 : G) : calls_of script g1 = calls_of script g2.
Proof. unfold calls_of, script, bind, random_seed. reflexivity. Qed.

End PipelineFacts.

(** C5. Whenever the program writes its two files, both rasters measure
    exactly 1024 by 1024 pixels: the canvas is created at that size, no
    ImageDraw call changes it, and the composite and its RGB conversion keep
    it. *)
Theorem outputs_are_1024_square {G : Type} {RNG : Random G} {LM : Libm}
    {RA : Rasterizer} {FS : FileSystem} (g : G) (out_rgb : image rgb) (out_rgba : image rgba)
    (Hrun : main g = Some (out_rgb, out_rgba)) :
  (exists img, canvas g = Some img /\ im_size img = (1024, 1024)) /\
  im_size out_rgb = (1024, 1024) /\
  im_size out_rgba = (1024, 1024).
Proof.
  destruct (main_inv g _ _ Hrun) as (img & Hc & Hs & -> & ->).
  split; [exists img; split; assumption|]. split; reflexivity.
Qed.

Lemma reference_main_runs :
  is_some (main (RNG:=lcg_random) (LM:=taylor_libm) (RA:=box_rasterizer)
          (FS:=open_files) 0)
  = true.
Proof. vm_compute. reflexivity. Qed.

Lemma outputs_are_1024_square_witness :
  exists out_rgb out_rgba,
    main (RNG:=lcg_random) (LM:=taylor_libm) (RA:=box_rasterizer)
          (FS:=open_files) 0
      = Some (out_rgb, out_rgba) /\
    im_size out_rgb = (1024, 1024) /\
    im_size out_rgba = (1024, 1024).
Proof.
  pose proof reference_main_runs as Hruns.
  destruct (main (RNG:=lcg_random) (LM:=taylor_libm) (RA:=box_rasterizer)
          (FS:=open_files) 0)
    as [[out_rgb out_rgba]|] eqn:Hrun;
    [|discriminate].
  exists out_rgb, out_rgba. split; [reflexivity|].
  exact (proj2 (outputs_are_1024_square
                  (RNG:=lcg_random) (LM:=taylor_libm) (RA:=box_rasterizer)
                  0 out_rgb out_rgba Hrun)).
Defined.

(** C4. With the drawing library, the C library and the generator
    implementation fixed, two runs of the program make the same calls on the
    canvas and produce the same two rasters, pixel for pixel at every
    coordinate, whatever state the generator was in when each run started:
    all geometry is constant and the generator is reseeded with 42 before
    its first use. *)
Theorem render_is_deterministic {G : Type} {RNG : Random G} {LM : Libm}
    {RA : Rasterizer} {FS : FileSystem} (g1 g2 : G) :
  calls_of script g1 = calls_of script g2 /\
  canvas g1 = canvas g2 /\
  main g1 = main g2 /\
  forall rgb1 rgba1 rgb2 rgba2,
    main g1 = Some (rgb1, rgba1) ->
    main g2 = Some (rgb2, rgba2) ->
    im_size rgb1 = im_size rgb2 /\
    im_size rgba1 = im_size rgba2 /\
    forall x y,
      im_px rgb1 x y = im_px rgb2 x y /\
      im_px rgba1 x y = im_px rgba2 x y.
Proof.
  assert (Hc : canvas g1 = canvas g2)
    by (unfold canvas; now rewrite (script_from_seed g1 g2)).
  assert (Hm : main g1 = main g2) by (unfold main; now rewrite Hc).
  split; [apply script_from_seed|]. split; [exact Hc|]. split; [exact Hm|].
  intros rgb1 rgba1 rgb2 rgba2 H1 H2.
  rewrite Hm, H2 in H1. injection H1 as <- <-.
  repeat split; reflexivity.
Qed.

Lemma render_is_deterministic_witness :
  exists rgb1 rgba1 rgb2 rgba2,
    main (RNG:=lcg_random) (LM:=taylor_libm) (RA:=box_rasterizer)
          (FS:=open_files) 0
      = Some (rgb1, rgba1) /\
    main (RNG:=lcg_random) (LM:=taylor_libm) (RA:=box_rasterizer)
          (FS:=open_files) 7
      = Some (rgb2, rgba2) /\
    forall x y,
      im_px rgb1 x y = im_px rgb2 x y /\
      im_px rgba1 x y = im_px rgba2 x y.
Proof.
  destruct (render_is_deterministic
              (RNG:=lcg_random) (LM:=taylor_libm) (RA:=box_rasterizer)
          (FS:=open_files) 0 7)
    as (_ & _ & Hm & Hpx).
  pose proof reference_main_runs as Hruns.
  destruct (main (RNG:=lcg_random) (LM:=taylor_libm) (RA:=box_rasterizer)
          (FS:=open_files) 0)
    as [[rgb1 rgba1]|] eqn:Hrun;
    [|discriminate].
  exists rgb1, rgba1, rgb1, rgba1.
  split; [reflexivity|]. split; [symmetry; exact Hm|].
  exact (proj2 (proj2 (Hpx rgb1 rgba1 rgb1 rgba1 eq_refl (eq_sym Hm)))).
Defined.

(** C2, as built.  Whenever the program writes its two files, every pixel of
    the RGBA file is the canvas pixel composited over the opaque [BG_DARK]
    and has alpha exactly 255, and every pixel of the RGB file is made of
    the three colour bands of that composite: nothing transparent is left in
    either file. *)
Theorem outputs_are_opaque {G : Type} {RNG : Random G} {LM : Libm}
    {RA : Rasterizer} {FS : FileSystem} (g : G) (out_rgb : image rgb) (out_rgba : image rgba)
    (Hrun : main g = Some (out_rgb, out_rgba)) :
  exists img,
    canvas g = Some img /\
    forall x y,
      im_px out_rgba x y
        = composite_px (mk_rgba 10 10 13 255) (im_px img x y) /\
      alpha (im_px out_rgba x y) = 255 /\
      im_px out_rgb x y
        = mk_rgb (red (im_px out_rgba x y)) (green (im_px out_rgba x y))
                 (blue (im_px out_rgba x y)).
Proof.
  destruct (main_inv g _ _ Hrun) as (img & Hc & _ & -> & ->).
  exists img. split; [assumption|]. intros x y.
  split; [reflexivity|]. split; [|reflexivity].
  cbn [im_px]. apply composite_over_opaque.
Qed.

Lemma outputs_are_opaque_witness :
  exists out_rgb out_rgba,
    main (RNG:=lcg_random) (LM:=taylor_libm) (RA:=box_rasterizer)
          (FS:=open_files) 0
      = Some (out_rgb, out_rgba) /\
    alpha (im_px out_rgba 0 0) = 255 /\
    alpha (im_px out_rgba 512 512) = 255.
Proof.
  pose proof reference_main_runs as Hruns.
  destruct (main (RNG:=lcg_random) (LM:=taylor_libm) (RA:=box_rasterizer)
          (FS:=open_files) 0)
    as [[out_rgb out_rgba]|] eqn:Hrun;
    [|discriminate].
  exists out_rgb, out_rgba. split; [reflexivity|].
  destruct (outputs_are_opaque
              (RNG:=lcg_random) (LM:=taylor_libm) (RA:=box_rasterizer)
              0 out_rgb out_rgba Hrun) as (img & _ & Hpx).
  split; [exact (proj1 (proj2 (Hpx 0 0)))
         |exact (proj1 (proj2 (Hpx 512 512)))].
Defined.

(** C2, as specified, fails: no choice of libraries and no run leaves a
    pixel of the RGBA file, on the canvas edge or elsewhere, with an alpha
    other than 255. *)
Lemma rgba_output_alpha_is_trivial :
  ~ exists (G : Type) (RNG : Random G) (LM : Libm) (RA : Rasterizer)
           (FS : FileSystem) (g : G) (out_rgb : image rgb) (out_rgba : image rgba) (x y : Z),
      main g = Some (out_rgb, out_rgba) /\
      0 <= x < SIZE /\ 0 <= y < SIZE /\
      alpha (im_px out_rgba x y) <> 255.
Proof.
  intros (G & RNG & LM & RA & FS & g & out_rgb & out_rgba & x & y
          & Hrun & _ & _ & Hne).
  apply Hne. exact (main_alpha_opaque g out_rgb out_rgba x y Hrun).
Qed.

(** ** The ambient particles *)

Section DrawingMonadFacts.

Context {G : Type} {RNG : Random G} {LM : Libm}.

Lemma bind_inv {A B : Type} (m : M G A) (k : A -> M G B) (w w' : world G)
    (b : B) :
  bind m k w = Some (b, w') ->
  exists a w1, m w = Some (a, w1) /\ k a w1 = Some (b, w').
Proof.
  unfold bind. destruct (m w) as [[a w1]|]; [|discriminate].
  intros Hk. now exists a, w1.
Qed.

Lemma keeps_rng_ret {A : Type} (a : A) : keeps_rng (ret (G:=G) a).
Proof. intros w a' w' [= _ <-]. reflexivity. Qed.

Lemma keeps_rng_lift {A : Type} (o : option A) : keeps_rng (lift (G:=G) o).
Proof.
  intros w a w'. unfold lift. destruct o; [|discriminate].
  intros [= _ <-]. reflexivity.
Qed.

Lemma emit_inv (op : draw_op) (w w' : world G) (u : unit) :
  emit op w = Some (u, w') ->
  accepts_inks op = true /\ w' = mk_world (w_rng w) (w_calls w ++ [op]).
Proof.
  unfold emit. destruct (accepts_inks op); [|discriminate].
  intros [= _ <-]. now split.
Qed.

Lemma keeps_rng_emit (op : draw_op) : keeps_rng (emit (G:=G) op).
Proof.
  intros w a w' He. apply emit_inv in He as [_ ->]. reflexivity.
Qed.

Lemma keeps_rng_bind {A B : Type} (m : M G A) (k : A -> M G B) :
  keeps_rng m -> (forall a, keeps_rng (k a)) -> keeps_rng (bind m k).
Proof.
  intros Hm Hk w b w' Hb.
  destruct (bind_inv m k w w' b Hb) as (a & w1 & H1 & H2).
  rewrite (Hk a w1 b w' H2). exact (Hm w a w1 H1).
Qed.

Lemma keeps_rng_for_each {A : Type} (l : list A) (body : A -> M G unit) :
  (forall a, keeps_rng (body a)) -> keeps_rng (for_each l body).
Proof.
  intros Hbody. induction l as [|a l IH]; cbn [for_each].
  - apply keeps_rng_ret.
  - apply keeps_rng_bind; [apply Hbody | intros _; exact IH].
Qed.

Lemma keeps_rng_for_range (start stop step : Z) (body : Z -> M G unit) :
  (forall i, keeps_rng (body i)) ->
  keeps_rng (for_range start stop step body).
Proof.
  intros Hbody. unfold for_range.
  apply keeps_rng_bind; [apply keeps_rng_lift|].
  intros l. now apply keeps_rng_for_each.
Qed.

End DrawingMonadFacts.

(** Discharges [keeps_rng] for code built from the drawing helpers, by the
    shape of the code. *)
Ltac rng_kept :=
  cbv beta zeta;
  lazymatch goal with
  | |- keeps_rng (ret _) => apply keeps_rng_ret
  | |- keeps_rng (lift _) => apply keeps_rng_lift
  | |- keeps_rng (emit _) => apply keeps_rng_emit
  | |- keeps_rng (bind _ _) =>
      apply keeps_rng_bind; [rng_kept | intro; rng_kept]
  | |- keeps_rng (for_each _ _) =>
      apply keeps_rng_for_each; intro; rng_kept
  | |- keeps_rng (for_range _ _ _ _) =>
      apply keeps_rng_for_range; intro; rng_kept
  | |- keeps_rng (if ?c then _ else _) => destruct c; rng_kept
  end.

(** The order of binary64 numbers, as far as the sampled ranges need it. *)
Lemma SFcompare_refl (f : spec_float) :
  f <> S754_nan -> SFcompare f f = Some Eq.
Proof.
  destruct f as [s|s| |s m e]; cbn; try congruence; destruct s;
    try reflexivity;
    intros _; rewrite Z.compare_refl;
    change (Pos.compare_cont Eq m m) with (Pos.compare m m);
    now rewrite Pos.compare_refl.
Qed.

Lemma SFleb_ltb_trans (a b c : spec_float) :
  SFleb a b = true -> SFltb b c = true -> SFltb a c = true.
Proof.
  unfold SFleb, SFltb.
  destruct a as [sa|sa| |sa ma ea], b as [sb|sb| |sb mb eb],
           c as [sc|sc| |sc mc ec]; cbn;
    try destruct sa; try destruct sb; try destruct sc;
    try discriminate; try reflexivity;
    change (Pos.compare_cont Eq) with Pos.compare;
    destruct (Z.compare_spec ea eb), (Z.compare_spec eb ec),
             (Z.compare_spec ea ec);
    try discriminate; try reflexivity; try lia;
    destruct (Pos.compare_spec ma mb), (Pos.compare_spec mb mc),
             (Pos.compare_spec ma mc);
    cbn; try discriminate; try reflexivity; try lia.
Qed.

Lemma leb_ltb_trans (x y z : float) :
  PrimFloat.leb x y = true -> PrimFloat.ltb y z = true ->
  PrimFloat.ltb x z = true.
Proof. rewrite leb_spec, !ltb_spec. apply SFleb_ltb_trans. Qed.

Lemma leb_refl_of_leb (x y : float) :
  PrimFloat.leb x y = true ->
  PrimFloat.leb x x = true /\ PrimFloat.leb y y = true.
Proof.
  rewrite !leb_spec. unfold SFleb. intros H.
  assert (Hx : Prim2SF x <> S754_nan)
    by (intros E; rewrite E in H; discriminate).
  assert (Hy : Prim2SF y <> S754_nan)
    by (intros E; rewrite E in H; destruct (Prim2SF x); discriminate).
  now rewrite !SFcompare_refl.
Qed.

(** The two calls of [uniform] in the particle loop: the formula gives 0.0
    and the float just below [2 * pi] at the extremes of [random()] for the
    angle, and 360.0 and 465.0 for the distance. *)
Lemma angle_extremes :
  uniform_at (Py.I 0) (Py.mul (Py.I 2) (Py.F math_pi)) PrimFloat.zero
  = PrimFloat.zero /\
  uniform_at (Py.I 0) (Py.mul (Py.I 2) (Py.F math_pi)) random_max
  = 0x1.921fb54442d17p+2%float /\
  PrimFloat.ltb 0x1.921fb54442d17p+2%float turn = true.
Proof. repeat split; vm_compute; reflexivity. Qed.

Lemma dist_extremes :
  uniform_at (Py.I 360) (Py.I 465) PrimFloat.zero = Py.float_of_Z 360 /\
  uniform_at (Py.I 360) (Py.I 465) random_max = Py.float_of_Z 465.
Proof. split; vm_compute; reflexivity. Qed.

Lemma sampled_angle_in_turn {G : Type} {RNG : Random G}
    (Huniform : uniform_lawful) (g : G) :
  angle_in_turn
    (fst (rng_uniform (Py.I 0) (Py.mul (Py.I 2) (Py.F math_pi)) g)).
Proof.
  destruct angle_extremes as (Hlow & Htop & Hbelow).
  destruct (Huniform (Py.I 0) (Py.mul (Py.I 2) (Py.F math_pi)) g)
    as [H0 H1].
  - rewrite Hlow, Htop. vm_compute. reflexivity.
  - rewrite Hlow in H0. rewrite Htop in H1. split; [exact H0|].
    eapply leb_ltb_trans; eassumption.
Qed.

Lemma sampled_dist_in_annulus {G : Type} {RNG : Random G}
    (Huniform : uniform_lawful) (g : G) :
  dist_in_annulus (fst (rng_uniform (Py.I 360) (Py.I 465) g)).
Proof.
  destruct dist_extremes as (Hlow & Htop).
  destruct (Huniform (Py.I 360) (Py.I 465) g) as [H0 H1].
  - rewrite Hlow, Htop. vm_compute. reflexivity.
  - rewrite Hlow in H0. rewrite Htop in H1. split; assumption.
Qed.

Section ScatterFacts.

Context {G : Type} {RNG : Random G} {LM : Libm}.

Lemma fixed_layers_keep_rng : keeps_rng (G:=G) fixed_layers.
Proof.
  unfold fixed_layers, layer_background, layer_body, layer_head, layer_face,
    layer_eyes, layer_beak, layer_wings, layer_chest, chest_glow,
    draw_connection, draw_node, layer_head_pattern, draw_head_connection,
    layer_feet, draw_ellipse, circle, ring, poly, line.
  rng_kept.
Qed.

Hypothesis uniform_ok : uniform_lawful.
Hypothesis choice_ok : choice_lawful.
Hypothesis randint_ok : randint_lawful.
Hypothesis polar_ok : polar_defined.

(** One pass through the body of the loop. *)
Lemma particle_runs (w : world G) :
  exists angle g1 dist g2 c s px py sz g3 al g4,
    rng_uniform (Py.I 0) (Py.mul (Py.I 2) (Py.F math_pi)) (w_rng w)
    = (angle, g1) /\
    rng_uniform (Py.I 360) (Py.I 465) g1 = (dist, g2) /\
    math_cos (Py.F angle) = Some c /\
    Py.int (Py.add (Py.I CX) (Py.mul (Py.F dist) (Py.F c))) = Some px /\
    math_sin (Py.F angle) = Some s /\
    Py.int (Py.add (Py.I CY) (Py.mul (Py.F dist) (Py.F s))) = Some py /\
    rng_choice [1; 1; 2] g2 = Some (sz, g3) /\
    rng_randint 15 45 g3 = Some (al, g4) /\
    (sz = 1 \/ sz = 2) /\
    15 <= al <= 45 /\
    particle w
    = Some (tt, mk_world g4 (w_calls w ++ [particle_call px py sz al])).
Proof.
  destruct (rng_uniform (Py.I 0) (Py.mul (Py.I 2) (Py.F math_pi)) (w_rng w))
    as [angle g1] eqn:Ea.
  destruct (rng_uniform (Py.I 360) (Py.I 465) g1) as [dist g2] eqn:Ed.
  destruct (polar_ok _ _ _ _ _ Ea Ed) as (c & s & px & py & Hc & Hx & Hs & Hy).
  destruct (choice_ok [1; 1; 2] g2) as (sz & g3 & Hsz & Hin);
    [discriminate|].
  destruct (randint_ok 15 45 g3) as (al & g4 & Hal & Hrange); [lia|].
  exists angle, g1, dist, g2, c, s, px, py, sz, g3, al, g4.
  repeat (split; [first [reflexivity | eassumption | lia]|]).
  split; [cbn in Hin; intuition lia|]. split; [lia|].
  unfold particle, bind, random_uniform, random_choice, random_randint,
    lift, circle, emit.
  rewrite Ea. cbn [w_rng w_calls]. rewrite Ed. cbn [w_rng w_calls].
  rewrite Hc, Hx, Hs, Hy. cbn [w_rng w_calls].
  rewrite Hsz. cbn [w_rng w_calls]. rewrite Hal. reflexivity.
Qed.

Lemma particle_step (w : world G) :
  exists op g',
    particle w = Some (tt, mk_world g' (w_calls w ++ [op])) /\
    particle_drawn (w_rng w) op g'.
Proof.
  destruct (particle_runs w)
    as (angle & g1 & dist & g2 & c & s & px & py & sz & g3 & al & g4
        & Ea & Ed & Hc & Hx & Hs & Hy & Hsz & Hal & Hsize & Halpha & Hrun).
  exists (particle_call px py sz al), g4. split; [exact Hrun|].
  eapply particle_drawn_intro; try eassumption.
  - pose proof (sampled_angle_in_turn uniform_ok (w_rng w)) as Hin.
    now rewrite Ea in Hin.
  - pose proof (sampled_dist_in_annulus uniform_ok g1) as Hin.
    now rewrite Ed in Hin.
Qed.

Lemma particles_loop (l : list Z) (w : world G) :
  exists ops g',
    for_each l (fun _ => particle) w
      = Some (tt, mk_world g' (w_calls w ++ ops)) /\
    length ops = length l /\
    scatter (w_rng w) ops g'.
Proof.
  revert w. induction l as [|i l IH]; intros w.
  - exists [], (w_rng w). split; [|split; [reflexivity|constructor]].
    cbn [for_each]. unfold ret. rewrite app_nil_r. now destruct w.
  - destruct (particle_step w) as (op & g1 & Hp & Hd).
    destruct (IH (mk_world g1 (w_calls w ++ [op]))) as (ops & g' & Hl & Hn & Hs).
    exists (op :: ops), g'. split; [|split].
    + cbn [for_each]. unfold bind. rewrite Hp, Hl. cbn [w_calls].
      now rewrite <- app_assoc.
    + cbn [length]. now rewrite Hn.
    + econstructor; eassumption.
Qed.

Lemma ambient_particles_run (w : world G) :
  exists ops g',
    ambient_particles w = Some (tt, mk_world g' (w_calls w ++ ops)) /\
    length ops = 25%nat /\
    scatter (w_rng w) ops g'.
Proof.
  unfold ambient_particles, for_range.
  change (Py.range 0 25 1)
    with (Some (map (fun k => 0 + Z.of_nat k * 1) (seq 0 25))).
  unfold bind at 1. cbn [lift].
  destruct (particles_loop
              (map (fun k => 0 + Z.of_nat k * 1) (seq 0 25)) w)
    as (ops & g' & Hl & Hn & Hs).
  exists ops, g'. split; [exact Hl|]. split; [|exact Hs].
  rewrite Hn, length_map, length_seq. reflexivity.
Qed.

Lemma script_particles (g0 : G) (calls : list draw_op) :
  calls_of script g0 = Some calls ->
  exists pre ops g',
    calls = pre ++ ops /\
    length ops = 25%nat /\
    scatter (rng_seed 42) ops g'.
Proof.
  unfold calls_of.
  destruct (script (mk_world g0 [])) as [[u w']|] eqn:Hs; [|discriminate].
  intros [= <-]. unfold script, layer_framing in Hs.
  apply bind_inv in Hs. destruct Hs as (u0 & w0 & Hseed & Hs).
  injection Hseed as _ <-.
  apply bind_inv in Hs. destruct Hs as (u1 & w1 & Hfixed & Hs).
  apply bind_inv in Hs. destruct Hs as (u2 & w2 & Hring & Hamb).
  pose proof (fixed_layers_keep_rng _ _ _ Hfixed) as Hrng1.
  injection Hring as _ <-. cbn [w_rng] in Hrng1.
  match type of Hamb with
  | ambient_particles ?w2 = _ =>
      destruct (ambient_particles_run w2) as (ops & g' & Hrun & Hn & Hsc)
  end.
  rewrite Hrun in Hamb. injection Hamb as _ <-.
  cbn [w_rng w_calls] in *.
  eexists. exists ops, g'. split; [reflexivity|]. split; [exact Hn|].
  now rewrite <- Hrng1.
Qed.

End ScatterFacts.

Lemma scatter_bounds {G : Type} {RNG : Random G} {LM : Libm}
    (g g' : G) (ops : list draw_op) :
  scatter g ops g' ->
  Forall (fun op =>
    exists px py sz alpha,
      op = particle_call px py sz alpha /\
      (sz = 1 \/ sz = 2) /\ 15 <= alpha <= 45) ops.
Proof.
  induction 1 as [g|g op g1 ops g2 Hd _ IH]; constructor; [|exact IH].
  destruct Hd as [? ? ? ? ? ? ? px py sz ? al ? _ _ _ _ _ _ _ _ _ _ Hsz Hal].
  exists px, py, sz, al. repeat split; tauto.
Qed.

(** The reference generator honours the contracts of [choice] and
    [randint]. *)
Lemma lcg_choice_lawful : choice_lawful (RNG:=lcg_random).
Proof.
  intros l g Hl. cbn [rng_choice lcg_random].
  assert (Hlen : 0 < Z.of_nat (length l)) by (destruct l; [congruence|cbn; lia]).
  pose proof (Z.mod_pos_bound (lcg_bits g) (Z.of_nat (length l)) Hlen) as Hb.
  destruct (nth_error l (Z.to_nat (lcg_bits g mod Z.of_nat (length l))))
    as [v|] eqn:Ev.
  - exists v, (lcg_next g). split; [reflexivity|].
    eapply nth_error_In; eassumption.
  - apply nth_error_None in Ev. lia.
Qed.

Lemma lcg_randint_lawful : randint_lawful (RNG:=lcg_random).
Proof.
  intros a b g Hab. cbn [rng_randint lcg_random].
  replace (b <? a) with false by (symmetry; apply Z.ltb_ge; lia).
  exists (a + lcg_bits g mod (b - a + 1)), (lcg_next g).
  split; [reflexivity|].
  pose proof (Z.mod_pos_bound (lcg_bits g) (b - a + 1)). lia.
Qed.

(** The generator with CPython's [uniform] honours the contracts as well,
    and with a C library whose [cos] and [sin] are bounded its polar points
    are finite. *)
Lemma lcg_uniform_lawful : uniform_lawful (RNG:=lcg_uniform_random).
Proof.
  intros a b g low top Hle. cbn [rng_uniform lcg_uniform_random fst].
  destruct (leb_refl_of_leb _ _ Hle) as [Hlow Htop].
  unfold lcg_unit. destruct (Z.even (lcg_bits g)); split; assumption.
Qed.

Lemma lcg_uniform_choice_lawful : choice_lawful (RNG:=lcg_uniform_random).
Proof. exact lcg_choice_lawful. Qed.

Lemma lcg_uniform_randint_lawful : randint_lawful (RNG:=lcg_uniform_random).
Proof. exact lcg_randint_lawful. Qed.

Lemma lcg_uniform_polar_defined :
  polar_defined (RNG:=lcg_uniform_random) (LM:=square_libm).
Proof.
  intros g angle g1 dist g2 Ha Hd.
  cbn [rng_uniform lcg_uniform_random] in Ha, Hd.
  injection Ha as <- _. injection Hd as <- _.
  unfold lcg_unit.
  destruct (Z.even (lcg_bits g)), (Z.even (lcg_bits g1));
    do 4 eexists; repeat split; lazy; reflexivity.
Qed.

(** C7. The ambient scatter draws exactly 25 particles.  Each one takes, in
    this order, its angle from [uniform(0, 2 * pi)], its radial distance
    from [uniform(360, 465)], its size from [choice([1, 1, 2])] and its
    alpha from [randint(15, 45)], every sample advancing the generator for
    the next.  The angle lies in [0, 2 * pi), with [2 * pi] itself excluded;
    the distance lies in the annulus between the radii 360 and 465; the size
    is 1 or 2 and the alpha lies in 15..45.  In the script the first
    particle starts from the generator seeded with 42, so the calls do not
    depend on the state the process started with.  The generator and the C
    library are assumed to honour their contracts: [uniform] stays between
    the extremes of its formula, [choice] and [randint] return members, and
    the polar points are finite. *)
Theorem ambient_particles_scatter {G : Type} {RNG : Random G} {LM : Libm}
    (Huniform : uniform_lawful) (Hchoice : choice_lawful)
    (Hrandint : randint_lawful) (Hpolar : polar_defined)
    (w : world G) (g0 : G) :
  (exists ops g',
     ambient_particles w = Some (tt, mk_world g' (w_calls w ++ ops)) /\
     length ops = 25%nat /\
     scatter (w_rng w) ops g' /\
     Forall (fun op =>
       exists px py sz alpha,
         op = particle_call px py sz alpha /\
         (sz = 1 \/ sz = 2) /\ 15 <= alpha <= 45) ops) /\
  (forall g angle g1 dist g2,
     rng_uniform (Py.I 0) (Py.mul (Py.I 2) (Py.F math_pi)) g = (angle, g1) ->
     rng_uniform (Py.I 360) (Py.I 465) g1 = (dist, g2) ->
     (PrimFloat.leb PrimFloat.zero angle = true /\
      PrimFloat.ltb angle turn = true) /\
     (PrimFloat.leb (Py.float_of_Z 360) dist = true /\
      PrimFloat.leb dist (Py.float_of_Z 465) = true)) /\
  (forall calls,
     calls_of script g0 = Some calls ->
     exists pre ops g',
       calls = pre ++ ops /\ length ops = 25%nat /\
       scatter (rng_seed 42) ops g') /\
  (forall g1, calls_of script g1 = calls_of script g0).
Proof.
  split; [|split; [|split]].
  - destruct (ambient_particles_run Huniform Hchoice Hrandint Hpolar w)
      as (ops & g' & Hrun & Hn & Hs).
    exists ops, g'. split; [exact Hrun|]. split; [exact Hn|].
    split; [exact Hs|]. exact (scatter_bounds _ _ _ Hs).
  - intros g angle g1 dist g2 Ea Ed.
    pose proof (sampled_angle_in_turn Huniform g) as Hangle.
    pose proof (sampled_dist_in_annulus Huniform g1) as Hdist.
    rewrite Ea in Hangle. rewrite Ed in Hdist. split; assumption.
  - intros calls. apply (script_particles Huniform Hchoice Hrandint Hpolar).
  - intros g1. apply script_from_seed.
Qed.

Lemma ambient_particles_scatter_witness :
  exists ops g',
    ambient_particles (RNG:=lcg_uniform_random) (LM:=square_libm)
                      (mk_world 42 [])
      = Some (tt, mk_world g' ([] ++ ops)) /\
    length ops = 25%nat /\
    scatter (RNG:=lcg_uniform_random) (LM:=square_libm) 42 ops g' /\
    Forall (fun op =>
      exists px py sz alpha,
        op = particle_call px py sz alpha /\
        (sz = 1 \/ sz = 2) /\ 15 <= alpha <= 45) ops.
Proof.
  destruct (ambient_particles_scatter
              lcg_uniform_lawful lcg_uniform_choice_lawful
              lcg_uniform_randint_lawful lcg_uniform_polar_defined
              (mk_world 42 []) 0)
    as ((ops & g' & Hrun & Hn & Hs & Hb) & _).
  exists ops, g'. split; [exact Hrun|]. split; [exact Hn|].
  split; [exact Hs|exact Hb].
Defined.

(* ================================================================== *)
(** * Further properties of the script *)
(* ================================================================== *)

(** ** [lerp] on tuples of any length *)

Lemma mapM_length {A B : Type} (f : A -> option B) (l : list A)
    (out : list B) :
  mapM f l = Some out -> length out = length l.
Proof.
  revert out. induction l as [|a l IH]; intros out; cbn [mapM obind].
  - now intros [= <-].
  - destruct (f a) as [b|]; [|discriminate]. cbn [obind].
    destruct (mapM f l) as [bs|]; [|discriminate]. cbn [obind].
    intros [= <-]. cbn [length]. now rewrite (IH bs eq_refl).
Qed.

Lemma mapM_all_defined {A B : Type} (f : A -> option B) (l : list A)
    (out : list B) :
  mapM f l = Some out -> forall a, In a l -> f a <> None.
Proof.
  revert out. induction l as [|x l IH]; intros out Hm a Hin; [destruct Hin|].
  cbn [mapM obind] in Hm.
  destruct (f x) as [b|] eqn:Ex; [|discriminate]. cbn [obind] in Hm.
  destruct (mapM f l) as [bs|]; [|discriminate].
  destruct Hin as [<-|Hin]; [congruence|]. exact (IH bs eq_refl a Hin).
Qed.

Lemma index_past_end {A : Type} (l : list A) (k : nat) :
  (length l <= k)%nat -> Py.index l (Z.of_nat k) = None.
Proof.
  intros Hk. unfold Py.index.
  replace (Z.of_nat k <? Z.of_nat (length l)) with false
    by (symmetry; apply Z.ltb_ge; lia).
  rewrite andb_false_r.
  replace (Z.of_nat k <? 0) with false by (symmetry; apply Z.ltb_ge; lia).
  now rewrite andb_false_r.
Qed.

Lemma lerp_defined_length (c1 c2 out : list Z) (t : Py.num) :
  lerp c1 c2 t = Some out ->
  length out = length c1 /\ (length c1 <= length c2)%nat.
Proof.
  unfold lerp. intros Hm. split.
  - rewrite (mapM_length _ _ _ Hm), length_map, length_seq. reflexivity.
  - destruct (Nat.le_gt_cases (length c1) (length c2)) as [Hle|Hgt];
      [exact Hle|exfalso].
    apply (mapM_all_defined _ _ _ Hm (Z.of_nat (length c2))).
    + apply in_map, in_seq. lia.
    + unfold lerp_channel. rewrite index_of_nat by lia.
      destruct (nth_error c1 (length c2)); [|reflexivity].
      cbn [obind]. now rewrite index_past_end.
Qed.

Lemma lerp_channel_prefix (c1 c2 extra : list Z) (t : Py.num) (k : nat) :
  (k < length c1)%nat -> (length c1 <= length c2)%nat ->
  lerp_channel c1 (c2 ++ extra) t (Z.of_nat k)
  = lerp_channel c1 c2 t (Z.of_nat k).
Proof.
  intros Hk Hle. unfold lerp_channel.
  rewrite (index_of_nat c2) by lia.
  rewrite (index_of_nat (c2 ++ extra)) by (rewrite length_app; lia).
  now rewrite nth_error_app1 by lia.
Qed.

Lemma mapM_ext_in {A B : Type} (f g : A -> option B) (l : list A) :
  (forall a, In a l -> f a = g a) -> mapM f l = mapM g l.
Proof.
  induction l as [|a l IH]; intros Hfg; [reflexivity|].
  cbn [mapM]. rewrite (Hfg a) by now left.
  rewrite IH; [reflexivity|]. intros x Hx. apply Hfg. now right.
Qed.

(** X1. [lerp] returns a tuple as long as its first colour, and only when
    the second colour is at least as long: a shorter second colour raises,
    and the channels a longer one has beyond the first are ignored. *)
Theorem lerp_shape (c1 c2 extra : list Z) (t : Py.num) :
  (forall out, lerp c1 c2 t = Some out ->
     length out = length c1 /\ (length c1 <= length c2)%nat) /\
  ((length c2 < length c1)%nat -> lerp c1 c2 t = None) /\
  ((length c1 <= length c2)%nat ->
     lerp c1 (c2 ++ extra) t = lerp c1 c2 t).
Proof.
  split; [|split].
  - intros out. apply lerp_defined_length.
  - intros Hlt. destruct (lerp c1 c2 t) as [out|] eqn:El; [|reflexivity].
    apply lerp_defined_length in El. lia.
  - intros Hle. unfold lerp. apply mapM_ext_in.
    intros i Hi. apply in_map_iff in Hi. destruct Hi as (k & <- & Hk).
    apply in_seq in Hk. apply lerp_channel_prefix; lia.
Qed.

Lemma lerp_shape_witness :
  lerp GOLD_LIGHT [170; 125; 42] (Py.F PrimFloat.one) = None /\
  lerp [240; 210; 150] (GOLD_DARK ++ [7; 7]) (Py.I 1)
    = lerp [240; 210; 150] GOLD_DARK (Py.I 1).
Proof.
  destruct (lerp_shape GOLD_LIGHT [170; 125; 42] [] (Py.F PrimFloat.one))
    as (_ & Hshort & _).
  destruct (lerp_shape [240; 210; 150] GOLD_DARK [7; 7] (Py.I 1))
    as (_ & _ & Hlong).
  split; [apply Hshort; cbn; lia | apply Hlong; cbn; lia].
Defined.

Lemma lerp_exact_nth (c1 c2 : list Z) (k : Z) (n : nat) (a b : Z) :
  nth_error c1 n = Some a -> nth_error c2 n = Some b ->
  nth_error (lerp_exact c1 c2 k) n = Some (a + (b - a) * k).
Proof.
  unfold lerp_exact. revert c2 n.
  induction c1 as [|x c1 IH]; intros c2 n Ha Hb; [destruct n; discriminate|].
  destruct c2 as [|y c2]; [destruct n; discriminate|].
  destruct n as [|n]; cbn in Ha, Hb |- *.
  - injection Ha as <-. injection Hb as <-. reflexivity.
  - now apply IH.
Qed.

(** X2. With an int parameter [k] and a second colour at least as long as
    the first, [lerp] is exact integer arithmetic, [a + (b - a) * k] on
    every channel pair, for all integers: nothing is rounded and nothing is
    clamped, so a parameter outside 0..1 extrapolates. *)
Theorem lerp_int_exact (c1 c2 : list Z) (k : Z)
    (Hlen : (length c1 <= length c2)%nat) :
  lerp c1 c2 (Py.I k) = Some (lerp_exact c1 c2 k) /\
  length (lerp_exact c1 c2 k) = length c1.
Proof.
  assert (Hl : length (lerp_exact c1 c2 k) = length c1).
  { unfold lerp_exact. rewrite length_map, length_combine. lia. }
  split; [|exact Hl].
  unfold lerp. rewrite <- Hl. apply mapM_tabulate.
  intros n Hn. cbn [Nat.add]. unfold lerp_channel.
  rewrite Hl in Hn. rewrite !index_of_nat by lia.
  destruct (nth_error c1 n) as [a|] eqn:Ea;
    [|apply nth_error_None in Ea; lia].
  destruct (nth_error c2 n) as [b|] eqn:Eb;
    [|apply nth_error_None in Eb; lia].
  cbn [obind Py.int Py.add Py.mul].
  now rewrite (lerp_exact_nth c1 c2 k n a b Ea Eb).
Qed.

Lemma lerp_int_exact_witness :
  lerp GOLD_LIGHT GOLD_DARK (Py.I 2) = Some [100; 40; -66; 255].
Proof.
  assert (Hlen : (length GOLD_LIGHT <= length GOLD_DARK)%nat) by (cbn; lia).
  exact (proj1 (lerp_int_exact GOLD_LIGHT GOLD_DARK 2 Hlen)).
Defined.

(** ** [aa_line] on any colour *)

(** X3. [aa_line] completes on four-element colours only.  With fewer
    elements [color[3]] raises before anything is drawn.  With more, the
    glow is accepted (it is cut down to four elements) and the main [d.line]
    call then refuses the colour, so the call raises after one stroke.  On
    [(r, g, b, a)] the segment is stroked twice: first the glow, three pixels
    wider, in [(r, g, b, max(10, a // 4))], then the main line in the colour
    as given; the glow's alpha is at least 10 and at most the larger of 10
    and [a]. *)
Theorem aa_line_behaviour {G : Type} (g : G) (x1 y1 x2 y2 w : Z)
    (color : list Z) :
  ((length color < 4)%nat ->
     Py.index color 3 = None /\
     calls_of (aa_line x1 y1 x2 y2 color w) g = None) /\
  ((4 < length color)%nat ->
     (exists a,
        Py.index color 3 = Some a /\
        accepts_inks (Line [(x1, y1); (x2, y2)]
                           (firstn 3 color ++ [Z.max 10 (a / 4)]) (w + 3))
        = true) /\
     accepts_inks (Line [(x1, y1); (x2, y2)] color w) = false /\
     calls_of (aa_line x1 y1 x2 y2 color w) g = None) /\
  (forall r gr b a, color = [r; gr; b; a] ->
     calls_of (aa_line x1 y1 x2 y2 color w) g
     = Some [Line [(x1, y1); (x2, y2)] [r; gr; b; Z.max 10 (a / 4)] (w + 3);
             Line [(x1, y1); (x2, y2)] [r; gr; b; a] w] /\
     10 <= Z.max 10 (a / 4) <= Z.max 10 a).
Proof.
  split; [|split].
  - intros Hlen.
    assert (Hidx : Py.index color 3 = None)
      by (change 3 with (Z.of_nat 3); apply index_past_end; lia).
    split; [exact Hidx|].
    unfold calls_of, aa_line, bind, lift. now rewrite Hidx.
  - intros Hlen.
    assert (Hidx : Py.index color 3 = nth_error color 3)
      by (change 3 with (Z.of_nat 3); apply index_of_nat; lia).
    destruct color as [|c0 [|c1 [|c2 [|c3 [|c4 rest]]]]];
      cbn [length] in Hlen; try lia.
    cbn [nth_error] in Hidx.
    split; [exists c3; split; [exact Hidx|reflexivity]|].
    split; [reflexivity|].
    unfold calls_of, aa_line, bind, lift. rewrite Hidx. reflexivity.
  - intros r gr b a ->. split; [reflexivity|].
    Z.to_euclidean_division_equations; lia.
Qed.

Lemma aa_line_behaviour_witness :
  calls_of (aa_line 0 0 8 6 [212; 168; 83] 2) tt = None /\
  calls_of (aa_line 0 0 8 6 [212; 168; 83; 200; 9] 2) tt = None /\
  calls_of (aa_line 0 0 8 6 [212; 168; 83; 200] 2) tt
  = Some [Line [(0, 0); (8, 6)] [212; 168; 83; 50] 5;
          Line [(0, 0); (8, 6)] [212; 168; 83; 200] 2].
Proof.
  destruct (aa_line_behaviour tt 0 0 8 6 2 [212; 168; 83]) as (Hshort & _).
  destruct (aa_line_behaviour tt 0 0 8 6 2 [212; 168; 83; 200; 9])
    as (_ & Hlong & _).
  destruct (aa_line_behaviour tt 0 0 8 6 2 [212; 168; 83; 200])
    as (_ & _ & Hfour).
  split; [apply Hshort; cbn; lia|].
  split; [apply Hlong; cbn; lia|].
  exact (proj1 (Hfour 212 168 83 200 eq_refl)).
Defined.

(** ** The whole tier table *)

Lemma draw_node_tier {G : Type} (g : G) (i nx ny : Z) :
  calls_of (draw_node i nx ny) g = Some (tier_calls (node_tier i) nx ny).
Proof.
  unfold draw_node, node_tier.
  destruct (i =? 0); [reflexivity|].
  destruct (i <=? 3); [reflexivity|].
  destruct (i <=? 7); [reflexivity|].
  destruct (i <=? 12); reflexivity.
Qed.

Lemma node_tier_antitone (i j : Z) :
  0 <= i <= j -> tier_le (node_tier j) (node_tier i).
Proof.
  intros Hij. unfold node_tier.
  destruct (Z.eqb_spec i 0), (Z.eqb_spec j 0),
    (Z.leb_spec i 3), (Z.leb_spec j 3), (Z.leb_spec i 7), (Z.leb_spec j 7),
    (Z.leb_spec i 12), (Z.leb_spec j 12);
    try lia; unfold tier_le; cbn; lia.
Qed.

(** X4. For every index the node loop draws the three circles of one row of
    the tier table, centred on the node, with the highlight inside the core
    inside the glow; and along the node list nothing grows: for
    [0 <= i <= j] each of the five entries of the row of [j] is at most the
    one of the row of [i]. *)
Theorem node_tiers_shrink {G : Type} (g : G) (i j nx ny : Z)
    (Hij : 0 <= i <= j) :
  calls_of (draw_node i nx ny) g = Some (tier_calls (node_tier i) nx ny) /\
  calls_of (draw_node j nx ny) g = Some (tier_calls (node_tier j) nx ny) /\
  tier_le (node_tier j) (node_tier i) /\
  0 < highlight_radius (node_tier i) < core_radius (node_tier i) /\
  core_radius (node_tier i) < glow_radius (node_tier i) /\
  glow_alpha (node_tier i) < core_alpha (node_tier i).
Proof.
  split; [apply draw_node_tier|]. split; [apply draw_node_tier|].
  split; [now apply node_tier_antitone|].
  unfold node_tier.
  destruct (i =? 0); [cbn; lia|].
  destruct (i <=? 3); [cbn; lia|].
  destruct (i <=? 7); [cbn; lia|].
  destruct (i <=? 12); cbn; lia.
Qed.

Lemma node_tiers_shrink_witness :
  calls_of (draw_node 5 487 612) tt = Some (tier_calls tier_2 487 612) /\
  calls_of (draw_node 9 457 662) tt = Some (tier_calls tier_3 457 662) /\
  tier_le tier_3 tier_2.
Proof.
  assert (H : 0 <= 5 <= 9) by lia.
  destruct (node_tiers_shrink tt 5 9 487 612 H) as (H5 & _ & Hle & _).
  destruct (node_tiers_shrink tt 9 9 457 662 ltac:(lia)) as (H9 & _).
  split; [exact H5|]. split; [exact H9|exact Hle].
Defined.

(** ** Which layers use the generator *)

Section BlindnessFacts.

Context {G : Type}.

Lemma rng_blind_ret {A : Type} (a : A) : rng_blind (ret (G:=G) a).
Proof.
  exists (Some (a, [])). intros g cs. unfold ret. now rewrite app_nil_r.
Qed.

Lemma rng_blind_lift {A : Type} (o : option A) : rng_blind (lift (G:=G) o).
Proof.
  destruct o as [a|].
  - exists (Some (a, [])). intros g cs. cbn. now rewrite app_nil_r.
  - exists None. intros g cs. reflexivity.
Qed.

Lemma rng_blind_emit (op : draw_op) : rng_blind (emit (G:=G) op).
Proof.
  destruct (accepts_inks op) eqn:Hink.
  - exists (Some (tt, [op])). intros g cs. unfold emit. now rewrite Hink.
  - exists None. intros g cs. unfold emit. now rewrite Hink.
Qed.

Lemma rng_blind_bind {A B : Type} (m : M G A) (k : A -> M G B) :
  rng_blind m -> (forall a, rng_blind (k a)) -> rng_blind (bind m k).
Proof.
  intros [[[a more]|] Hm] Hk.
  - destruct (Hk a) as [[[b more']|] Hka].
    + exists (Some (b, more ++ more')). intros g cs. unfold bind.
      rewrite Hm, Hka. now rewrite app_assoc.
    + exists None. intros g cs. unfold bind. now rewrite Hm, Hka.
  - exists None. intros g cs. unfold bind. now rewrite Hm.
Qed.

Lemma rng_blind_for_each {A : Type} (l : list A) (body : A -> M G unit) :
  (forall a, rng_blind (body a)) -> rng_blind (for_each l body).
Proof.
  intros Hbody. induction l as [|a l IH]; cbn [for_each].
  - apply rng_blind_ret.
  - apply rng_blind_bind; [apply Hbody | intros _; exact IH].
Qed.

Lemma rng_blind_for_range (start stop step : Z) (body : Z -> M G unit) :
  (forall i, rng_blind (body i)) ->
  rng_blind (for_range start stop step body).
Proof.
  intros Hbody. unfold for_range.
  apply rng_blind_bind; [apply rng_blind_lift|].
  intros l. now apply rng_blind_for_each.
Qed.

End BlindnessFacts.

(** Discharges [rng_blind] by the shape of the code. *)
Ltac blind :=
  cbv beta zeta;
  lazymatch goal with
  | |- rng_blind (ret _) => apply rng_blind_ret
  | |- rng_blind (lift _) => apply rng_blind_lift
  | |- rng_blind (emit _) => apply rng_blind_emit
  | |- rng_blind (bind _ _) => apply rng_blind_bind; [blind | intro; blind]
  | |- rng_blind (for_each _ _) => apply rng_blind_for_each; intro; blind
  | |- rng_blind (for_range _ _ _ _) =>
      apply rng_blind_for_range; intro; blind
  | |- rng_blind (if ?c then _ else _) => destruct c; blind
  end.

Lemma fixed_layers_blind {G : Type} {LM : Libm} :
  rng_blind (G:=G)
    (bind fixed_layers (fun _ => ring CX CY 478 1 [212; 168; 83; 40])).
Proof.
  unfold fixed_layers, layer_background, layer_body, layer_head, layer_face,
    layer_eyes, layer_beak, layer_wings, layer_chest, chest_glow,
    draw_connection, draw_node, layer_head_pattern, draw_head_connection,
    layer_feet, draw_ellipse, circle, ring, poly, line.
  blind.
Qed.

(** X5. Everything the script draws before the ambient particles (layers 1
    to 10 and the outer ring) ignores the random generator.  There is one
    outcome, a failure or a list of calls, that these layers produce from
    every generator state and after every list of earlier calls; they
    append their calls and leave the generator as they found it. *)
Theorem drawing_before_particles_ignores_generator {G : Type} {LM : Libm} :
  exists o : option (list draw_op),
    forall (g : G) (cs : list draw_op),
      bind fixed_layers (fun _ => ring CX CY 478 1 [212; 168; 83; 40])
           (mk_world g cs)
      = match o with
        | Some more => Some (tt, mk_world g (cs ++ more))
        | None => None
        end.
Proof.
  destruct (fixed_layers_blind (G:=G)) as [[[[] more]|] Ho].
  - exists (Some more). exact Ho.
  - exists None. exact Ho.
Qed.

(** The particles, by contrast, do depend on the generator state. *)
Example particles_follow_generator :
  calls_of (ambient_particles (RNG:=lcg_random) (LM:=square_libm)) 0
  <> calls_of (ambient_particles (RNG:=lcg_random) (LM:=square_libm)) 65536.
Proof. vm_compute. discriminate. Qed.

(** ** Where the script draws *)

Section EmitsFacts.

Context {G : Type} (P : draw_op -> bool).

Lemma emits_only_ret {A : Type} (a : A) : emits_only P (ret (G:=G) a).
Proof.
  intros w a' w' [= _ <-]. exists []. now rewrite app_nil_r.
Qed.

Lemma emits_only_lift {A : Type} (o : option A) :
  emits_only P (lift (G:=G) o).
Proof.
  intros w a w'. unfold lift. destruct o; [|discriminate].
  intros [= _ <-]. exists []. now rewrite app_nil_r.
Qed.

Lemma emits_only_emit (op : draw_op) :
  P op = true -> emits_only P (emit (G:=G) op).
Proof.
  intros HP w a w' He. apply emit_inv in He as [_ ->].
  exists [op]. cbn. now rewrite HP.
Qed.

Lemma emits_only_bind {A B : Type} (m : M G A) (k : A -> M G B) :
  emits_only P m -> (forall a, emits_only P (k a)) ->
  emits_only P (bind m k).
Proof.
  intros Hm Hk w b w' Hb.
  destruct (bind_inv m k w w' b Hb) as (a & w1 & H1 & H2).
  destruct (Hm w a w1 H1) as (more1 & E1 & F1).
  destruct (Hk a w1 b w' H2) as (more2 & E2 & F2).
  exists (more1 ++ more2). split.
  - now rewrite E2, E1, app_assoc.
  - rewrite forallb_app, F1, F2. reflexivity.
Qed.

Lemma emits_only_bind_lift {A B : Type} (o : option A) (k : A -> M G B) :
  (forall a, o = Some a -> emits_only P (k a)) ->
  emits_only P (bind (lift o) k).
Proof.
  intros Hk w b w' Hb. unfold bind, lift in Hb.
  destruct o as [a|]; [|discriminate].
  exact (Hk a eq_refl w b w' Hb).
Qed.

Lemma emits_only_for_each {A : Type} (l : list A) (body : A -> M G unit) :
  Forall (fun a => emits_only P (body a)) l ->
  emits_only P (for_each l body).
Proof.
  induction 1 as [|a l Ha _ IH]; cbn [for_each].
  - apply emits_only_ret.
  - apply emits_only_bind; [exact Ha | intros _; exact IH].
Qed.

End EmitsFacts.

(** Succeeds when some variable of the context occurs in [t]. *)
Ltac mentions_variable t :=
  match goal with
  | x : _ |- _ => lazymatch t with context [x] => idtac end
  end.

(** Runs through code built from the drawing helpers, evaluating what is
    closed and keeping what depends on the libraries symbolic; leaves one
    evaluated check per call. *)
Ltac emits :=
  cbv beta zeta;
  lazymatch goal with
  | |- emits_only _ (ret _) => apply emits_only_ret
  | |- emits_only _ (lift _) => apply emits_only_lift
  | |- emits_only _ (emit _) =>
      apply emits_only_emit; vm_compute; reflexivity
  | |- emits_only _ (bind (lift ?o) _) =>
      tryif mentions_variable o
      then (apply emits_only_bind; [apply emits_only_lift | intro; emits])
      else
        (let v := eval vm_compute in o in
         lazymatch v with
         | Some ?a =>
             apply emits_only_bind_lift;
             let x := fresh "x" in let E := fresh "E" in
             intros x E;
             assert (x = a) by (vm_compute in E; congruence);
             subst x; clear E; emits
         | None =>
             apply emits_only_bind_lift;
             let x := fresh "x" in let E := fresh "E" in
             intros x E; vm_compute in E; discriminate
         end)
  | |- emits_only _ (bind _ _) =>
      apply emits_only_bind; [emits | intro; emits]
  | |- emits_only _ (for_range _ _ _ _) => unfold for_range; emits
  | |- emits_only ?P (for_each ?l ?body) =>
      let v := eval vm_compute in l in
      apply (emits_only_for_each P v body);
      repeat (apply Forall_cons; [emits|]); apply Forall_nil
  | |- emits_only _ (if ?c then _ else _) =>
      let v := eval vm_compute in c in
      change c with v; cbv iota; emits
  end.

Lemma fixed_layers_in_frame {G : Type} {LM : Libm} :
  emits_only (G:=G) (inside 34 990) fixed_layers.
Proof.
  unfold fixed_layers, layer_background, layer_body, layer_head, layer_face,
    layer_eyes, layer_beak, layer_wings, layer_chest, chest_glow,
    draw_connection, draw_node, layer_head_pattern, draw_head_connection,
    layer_feet, draw_ellipse, circle, ring, poly, line.
  emits.
Qed.

Lemma choice_member {G : Type} {RNG : Random G} (l : list Z) (g g' : G)
    (v : Z) :
  choice_lawful -> l <> [] -> rng_choice l g = Some (v, g') -> In v l.
Proof.
  intros Hc Hl Hv. destruct (Hc l g Hl) as (v0 & g0 & Hv0 & Hin).
  rewrite Hv in Hv0. now injection Hv0 as -> _.
Qed.

Section FrameFacts.

Context {G : Type} {RNG : Random G} {LM : Libm}.

Hypothesis choice_ok : choice_lawful.
Hypothesis polar_ok : polar_bounded.

Lemma particle_in_frame : emits_only (inside 34 990) particle.
Proof.
  intros w a w' Hp.
  unfold particle, bind, random_uniform, random_choice, random_randint,
    lift, circle, emit in Hp.
  destruct (rng_uniform (Py.I 0) (Py.mul (Py.I 2) (Py.F math_pi)) (w_rng w))
    as [angle g1] eqn:Ea.
  cbn [w_rng w_calls] in Hp.
  destruct (rng_uniform (Py.I 360) (Py.I 465) g1) as [dist g2] eqn:Ed.
  cbn [w_rng w_calls] in Hp.
  destruct (math_cos (Py.F angle)) as [c|] eqn:Ec; [|discriminate].
  destruct (Py.int (Py.add (Py.I CX) (Py.mul (Py.F dist) (Py.F c))))
    as [px|] eqn:Ex; [|discriminate].
  destruct (math_sin (Py.F angle)) as [s|] eqn:Es; [|discriminate].
  destruct (Py.int (Py.add (Py.I CY) (Py.mul (Py.F dist) (Py.F s))))
    as [py|] eqn:Ey; [|discriminate].
  cbn [w_rng w_calls] in Hp.
  destruct (rng_choice [1; 1; 2] g2) as [[sz g3]|] eqn:Esz; [|discriminate].
  cbn [w_rng w_calls] in Hp.
  destruct (rng_randint 15 45 g3) as [[al g4]|] eqn:Eal; [|discriminate].
  injection Hp as _ <-. cbn [w_calls].
  eexists. split; [reflexivity|].
  destruct (polar_ok _ _ _ _ _ _ _ _ _ Ea Ed Ec Ex Es Ey) as [Hx Hy].
  assert (Hsz : In sz [1; 1; 2])
    by (eapply choice_member; [exact choice_ok|discriminate|exact Esz]).
  unfold CX, CY, CENTER, SIZE in Hx, Hy. cbn in Hx, Hy, Hsz.
  cbn [forallb inside op_box].
  rewrite andb_true_r, !andb_true_iff, !Z.leb_le. lia.
Qed.

Lemma script_in_frame : emits_only (inside 34 990) script.
Proof.
  unfold script, layer_framing, ambient_particles, for_range.
  apply emits_only_bind.
  { intros w a w' [= _ <-]. exists []. cbn. now rewrite app_nil_r. }
  intros _. apply emits_only_bind; [apply fixed_layers_in_frame|].
  intros _. apply emits_only_bind.
  { unfold ring. apply emits_only_emit. reflexivity. }
  intros _. apply emits_only_bind; [apply emits_only_lift|].
  intros l. apply emits_only_for_each, Forall_forall.
  intros _ _. apply particle_in_frame.
Qed.

End FrameFacts.

(** The reference generator with the squaring library keeps every particle
    on the x axis, 360 or 465 pixels from the centre. *)
Lemma lcg_polar_bounded : polar_bounded (RNG:=lcg_random) (LM:=square_libm).
Proof.
  intros g angle g1 dist g2 c s px py Ha Hd Hc Hx Hs Hy.
  cbn [rng_uniform lcg_random] in Ha, Hd.
  injection Ha as <- _. injection Hd as <- _.
  destruct (Z.even (lcg_bits g)), (Z.even (lcg_bits g1));
    vm_compute in Hc; injection Hc as <-;
    vm_compute in Hs; injection Hs as <-;
    vm_compute in Hx; injection Hx as <-;
    vm_compute in Hy; injection Hy as <-;
    vm_compute; repeat split; discriminate.
Qed.

Lemma reference_script_runs :
  is_some (calls_of (script (RNG:=lcg_random) (LM:=square_libm)) 0) = true.
Proof. vm_compute. reflexivity. Qed.

(** X6. Every call the script makes draws inside the square 34..990 on both
    axes, the bounding box of the outer ring, and so well inside the
    1024-pixel canvas: every ellipse has a well-formed bounding box within
    it, every polygon its vertices, every line its end points with room for
    its width.  For the particles this rests on the generator's [choice]
    returning a member and on the polar points staying within 465 pixels of
    the centre. *)
Theorem drawing_stays_in_frame {G : Type} {RNG : Random G} {LM : Libm}
    (Hchoice : choice_lawful) (Hpolar : polar_bounded)
    (g : G) (calls : list draw_op)
    (Hrun : calls_of script g = Some calls) :
  Forall (fun op =>
    exists x0 y0 x1 y1,
      op_box op = Some (x0, y0, x1, y1) /\
      34 <= x0 <= x1 /\ x1 <= 990 /\ 34 <= y0 <= y1 /\ y1 <= 990) calls.
Proof.
  unfold calls_of in Hrun.
  destruct (script (mk_world g [])) as [[u w']|] eqn:Hs; [|discriminate].
  injection Hrun as <-.
  destruct (script_in_frame Hchoice Hpolar _ _ _ Hs) as (more & -> & Hall).
  cbn [w_calls app]. rewrite forallb_forall in Hall.
  apply Forall_forall. intros op Hop. specialize (Hall op Hop).
  unfold inside in Hall.
  destruct (op_box op) as [[[[x0 y0] x1] y1]|]; [|discriminate].
  rewrite !andb_true_iff, !Z.leb_le in Hall.
  exists x0, y0, x1, y1. split; [reflexivity|]. lia.
Qed.

Lemma drawing_stays_in_frame_witness :
  exists calls,
    calls_of (script (RNG:=lcg_random) (LM:=square_libm)) 0 = Some calls /\
    Forall (fun op =>
      exists x0 y0 x1 y1,
        op_box op = Some (x0, y0, x1, y1) /\
        34 <= x0 <= x1 /\ x1 <= 990 /\ 34 <= y0 <= y1 /\ y1 <= 990) calls.
Proof.
  pose proof reference_script_runs as Hruns.
  destruct (calls_of (script (RNG:=lcg_random) (LM:=square_libm)) 0)
    as [calls|] eqn:Hrun; [|discriminate].
  exists calls. split; [reflexivity|].
  exact (drawing_stays_in_frame (RNG:=lcg_random) (LM:=square_libm)
           lcg_choice_lawful lcg_polar_bounded 0 calls Hrun).
Defined.

(** ** The border of the image *)

Lemma op_box_ellipse_any (xy : list Z) (fill outline : option (list Z))
    (width width' : Z) :
  op_box (Ellipse xy None None width') = op_box (Ellipse xy fill outline width).
Proof. reflexivity. Qed.

Lemma inside_covers (lo hi : Z) (op : draw_op) (x y : Z) :
  inside lo hi op = true -> in_box_opt (op_box op) x y ->
  lo <= x <= hi /\ lo <= y <= hi.
Proof.
  unfold inside, in_box_opt.
  destruct (op_box op) as [[[[x0 y0] x1] y1]|]; [|discriminate].
  rewrite !andb_true_iff, !Z.leb_le. lia.
Qed.

Section BorderFacts.

Context {RA : Rasterizer}.

Hypothesis raster_ok : raster_within_box.

Lemma render_op_outside (lo hi : Z) (op : draw_op) (im im' : image rgba)
    (x y : Z) :
  inside lo hi op = true ->
  ~ (lo <= x <= hi /\ lo <= y <= hi) ->
  render_op op im = Some im' ->
  im_px im' x y = im_px im x y.
Proof.
  destruct raster_ok as (Hell & Hpol & Hlin).
  intros Hin Hout.
  assert (Hcov : forall cover : Z -> Z -> bool,
            (cover x y = true -> in_box_opt (op_box op) x y) ->
            cover x y = false).
  { intros cover Hc. destruct (cover x y) eqn:E; [|reflexivity].
    exfalso. apply Hout. exact (inside_covers lo hi op x y Hin (Hc eq_refl)). }
  destruct op as [xy fill outline width|pts fill|pts fill width];
    cbn [render_op].
  - destruct (getink outline fill) as [[ink fill_ink]|]; [|discriminate].
    assert (H1 : ellipse_cover xy true 0 x y = false)
      by (apply Hcov; intros Hc;
          rewrite <- (op_box_ellipse_any xy fill outline width 0);
          exact (Hell _ _ _ _ _ Hc)).
    assert (H2 : ellipse_cover xy false width x y = false)
      by (apply Hcov; intros Hc;
          rewrite <- (op_box_ellipse_any xy fill outline width width);
          exact (Hell _ _ _ _ _ Hc)).
    destruct (ink_eqb ink fill_ink || (width =? 0)); intros [= <-];
      destruct ink, fill_ink; cbn [paint_opt paint im_px];
      rewrite ?H1, ?H2; reflexivity.
  - destruct (draw_ink fill); [|discriminate]. intros [= <-].
    cbn [paint im_px]. rewrite (Hcov (polygon_cover pts)); [reflexivity|].
    apply Hpol.
  - destruct (draw_ink fill); [|discriminate]. intros [= <-].
    cbn [paint im_px]. rewrite (Hcov (line_cover pts width)); [reflexivity|].
    apply Hlin.
Qed.

Lemma render_outside (lo hi : Z) (ops : list draw_op) (im im' : image rgba)
    (x y : Z) :
  forallb (inside lo hi) ops = true ->
  ~ (lo <= x <= hi /\ lo <= y <= hi) ->
  render ops im = Some im' ->
  im_px im' x y = im_px im x y.
Proof.
  revert im. induction ops as [|op ops IH]; intros im Hall Hout;
    cbn [render].
  - now intros [= <-].
  - cbn [forallb] in Hall. apply andb_prop in Hall. destruct Hall as [H1 H2].
    destruct (render_op op im) as [im1|] eqn:E1; [|discriminate].
    intros Hr. rewrite (IH im1 H2 Hout Hr).
    exact (render_op_outside lo hi op im im1 x y H1 Hout E1).
Qed.

End BorderFacts.

Lemma points_box_within (pts : list (Z * Z)) (pad pad' x y : Z) :
  pad <= pad' -> points_box pts pad x y = true ->
  in_box_opt (pts_box pts pad') x y.
Proof.
  intros Hpad. unfold points_box, pts_box, in_box_opt, in_box.
  destruct pts as [|p pts]; [discriminate|].
  rewrite !andb_true_iff, !Z.leb_le. lia.
Qed.

Lemma box_rasterizer_within_box : raster_within_box (RA:=box_rasterizer).
Proof.
  split; [|split].
  - intros xy filled width x y.
    cbn [ellipse_cover box_rasterizer].
    destruct xy as [|x0 [|y0 [|x1 [|y1 [|? ?]]]]]; try discriminate.
    cbn [op_box in_box_opt]. unfold in_box.
    rewrite !andb_true_iff, !Z.leb_le. lia.
  - intros pts x y. cbn [polygon_cover box_rasterizer].
    apply points_box_within. lia.
  - intros pts width x y. cbn [line_cover box_rasterizer].
    apply points_box_within. Z.to_euclidean_division_equations; lia.
Qed.

Lemma reference_square_main_runs :
  is_some (main (RNG:=lcg_random) (LM:=square_libm) (RA:=box_rasterizer)
          (FS:=open_files) 0)
  = true.
Proof. vm_compute. reflexivity. Qed.

(** X7. With a rasteriser that marks no pixel outside the box of a shape,
    the script never touches the border of the image: every pixel outside
    the square 34..990 keeps the background colour on the canvas, alpha 255
    included, and comes out as (10, 10, 13, 255) in the RGBA file and as
    (10, 10, 13) in the RGB file.  For the particles this takes a
    [random.choice] that returns a member and polar points within 465 pixels
    of the centre. *)
Theorem border_keeps_background {G : Type} {RNG : Random G} {LM : Libm}
    {RA : Rasterizer} {FS : FileSystem}
    (Hraster : raster_within_box) (Hchoice : choice_lawful)
    (Hpolar : polar_bounded)
    (g : G) (out_rgb : image rgb) (out_rgba : image rgba)
    (Hrun : main g = Some (out_rgb, out_rgba))
    (x y : Z) (Hborder : ~ (34 <= x <= 990 /\ 34 <= y <= 990)) :
  (exists img, canvas g = Some img /\
               im_px img x y = mk_rgba 10 10 13 255) /\
  im_px out_rgba x y = mk_rgba 10 10 13 255 /\
  im_px out_rgb x y = mk_rgb 10 10 13.
Proof.
  destruct (main_inv g _ _ Hrun) as (img & Hc & _ & -> & ->).
  assert (Hpx : im_px img x y = mk_rgba 10 10 13 255).
  { unfold canvas in Hc.
    change (Image_new SIZE SIZE BG_DARK)
      with (Some (mk_image 1024 1024 (fun _ _ => mk_rgba 10 10 13 255)))
      in Hc.
    cbn [obind] in Hc.
    destruct (calls_of script g) as [calls|] eqn:Hcalls; [|discriminate].
    cbn [obind] in Hc. unfold calls_of in Hcalls.
    destruct (script (mk_world g [])) as [[u w']|] eqn:Hs; [|discriminate].
    injection Hcalls as <-.
    destruct (script_in_frame Hchoice Hpolar _ _ _ Hs) as (more & E & Hall).
    cbn [w_calls app] in E. rewrite E in Hc.
    exact (render_outside Hraster 34 990 _ _ _ x y Hall Hborder Hc). }
  split; [exists img; split; assumption|].
  cbn [convert_RGB im_px]. rewrite Hpx. split; reflexivity.
Qed.

Lemma border_keeps_background_witness :
  exists out_rgb out_rgba,
    main (RNG:=lcg_random) (LM:=square_libm) (RA:=box_rasterizer)
          (FS:=open_files) 0
      = Some (out_rgb, out_rgba) /\
    im_px out_rgba 0 0 = mk_rgba 10 10 13 255 /\
    im_px out_rgb 1023 33 = mk_rgb 10 10 13.
Proof.
  pose proof reference_square_main_runs as Hruns.
  destruct (main (RNG:=lcg_random) (LM:=square_libm) (RA:=box_rasterizer)
          (FS:=open_files) 0)
    as [[out_rgb out_rgba]|] eqn:Hrun; [|discriminate].
  exists out_rgb, out_rgba. split; [reflexivity|].
  split.
  - exact (proj1 (proj2 (border_keeps_background
             (RNG:=lcg_random) (LM:=square_libm) (RA:=box_rasterizer)
             box_rasterizer_within_box lcg_choice_lawful lcg_polar_bounded
             0 out_rgb out_rgba Hrun 0 0 ltac:(lia)))).
  - exact (proj2 (proj2 (border_keeps_background
             (RNG:=lcg_random) (LM:=square_libm) (RA:=box_rasterizer)
             box_rasterizer_within_box lcg_choice_lawful lcg_polar_bounded
             0 out_rgb out_rgba Hrun 1023 33 ltac:(lia)))).
Defined.

(** ** The script under a squaring [pow] *)

Section Extensionality.

Context {G : Type}.

Lemma bind_ext {A B : Type} (m m' : M G A) (k k' : A -> M G B)
    (w : world G) :
  (forall w0, m w0 = m' w0) -> (forall a w0, k a w0 = k' a w0) ->
  bind m k w = bind m' k' w.
Proof.
  intros Hm Hk. unfold bind. rewrite Hm.
  destruct (m' w) as [[a w1]|]; [apply Hk|reflexivity].
Qed.

Lemma for_each_ext_in {A : Type} (l : list A) (f f' : A -> M G unit)
    (w : world G) :
  (forall a, In a l -> forall w0, f a w0 = f' a w0) ->
  for_each l f w = for_each l f' w.
Proof.
  revert w. induction l as [|a l IH]; intros w Hf; [reflexivity|].
  cbn [for_each]. apply bind_ext.
  - apply Hf. now left.
  - intros _ w0. apply IH. intros a' Ha'. apply Hf. now right.
Qed.

End Extensionality.

Lemma glow_radii_440 : Py.range 440 0 (-2) = Some (glow_radii 440).
Proof. reflexivity. Qed.

Lemma glow_radii_130 : Py.range 130 0 (-2) = Some (glow_radii 130).
Proof. reflexivity. Qed.

Section SquaringPow.

Context {G : Type} {LM : Libm}.

Hypothesis pow_ok : pow_squares_bases.

Lemma float_pow_square (x : float) :
  In x glow_bases -> float_pow x 2 = float_pow (H:=square_libm) x 2.
Proof.
  intros Hx. unfold pow_squares_bases in pow_ok.
  rewrite Forall_forall in pow_ok.
  unfold float_pow. now rewrite (pow_ok x Hx).
Qed.

(** One pass of a glow loop: only the square depends on the C library. *)
Lemma glow_pass_square (top rmax r cx cy : Z) (c : list Z) (w : world G) :
  Py.is_zero (Py.I rmax) = false ->
  In (glow_base rmax r) glow_bases ->
  bind (lift (Py.truediv (Py.I r) (Py.I rmax))) (fun t =>
    bind (lift (float_pow (Py.to_float (Py.sub (Py.I 1) t)) 2)) (fun p =>
    bind (lift (Py.int (Py.mul (Py.I top) (Py.F p)))) (fun alpha =>
    circle cx cy r (c ++ [alpha])))) w
  = bind (lift (Py.truediv (Py.I r) (Py.I rmax))) (fun t =>
    bind (lift (float_pow (H:=square_libm)
                          (Py.to_float (Py.sub (Py.I 1) t)) 2)) (fun p =>
    bind (lift (Py.int (Py.mul (Py.I top) (Py.F p)))) (fun alpha =>
    circle cx cy r (c ++ [alpha])))) w.
Proof.
  intros Hz Hin. unfold Py.truediv. rewrite Hz.
  unfold bind at 1 5. cbn [lift Py.to_float].
  fold (glow_base rmax r). now rewrite (float_pow_square _ Hin).
Qed.

Lemma layer_background_square (w : world G) :
  layer_background w = layer_background (LM:=square_libm) w.
Proof.
  unfold layer_background, for_range. rewrite glow_radii_440.
  unfold bind at 1 5. cbn [lift].
  apply for_each_ext_in. intros r Hr w0.
  apply (glow_pass_square 25 440 r CX (CY - 20) [180; 140; 60]);
    [reflexivity|].
  unfold glow_bases. apply in_or_app. left. now apply in_map.
Qed.

Lemma chest_glow_square (w : world G) :
  chest_glow w = chest_glow (LM:=square_libm) w.
Proof.
  unfold chest_glow, for_range. rewrite glow_radii_130.
  unfold bind at 1 5. cbn [lift].
  apply for_each_ext_in. intros r Hr w0.
  apply (glow_pass_square 12 130 r CX (chest_mid - 10) [212; 168; 83]);
    [reflexivity|].
  unfold glow_bases. apply in_or_app. right. now apply in_map.
Qed.

Lemma fixed_layers_square (w : world G) :
  fixed_layers w = fixed_layers (LM:=square_libm) w.
Proof.
  unfold fixed_layers, layer_chest.
  apply bind_ext; [apply layer_background_square|]. intros _ w1.
  do 6 (apply bind_ext; [reflexivity|]; intros _ ?).
  apply bind_ext; [|reflexivity]. intros w8.
  apply bind_ext; [apply chest_glow_square|reflexivity].
Qed.

End SquaringPow.

Lemma fixed_layers_alone_blind {G : Type} {LM : Libm} :
  rng_blind (G:=G) fixed_layers.
Proof.
  unfold fixed_layers, layer_background, layer_body, layer_head, layer_face,
    layer_eyes, layer_beak, layer_wings, layer_chest, chest_glow,
    draw_connection, draw_node, layer_head_pattern, draw_head_connection,
    layer_feet, draw_ellipse, circle, ring, poly, line.
  blind.
Qed.

Lemma fixed_layers_square_run {G : Type} (g : G) (cs : list draw_op) :
  fixed_layers (LM:=square_libm) (mk_world g cs)
  = Some (tt, mk_world g (cs ++ fixed_calls)).
Proof.
  destruct (fixed_layers_alone_blind (G:=G) (LM:=square_libm)) as [o Ho].
  assert (E : fixed_layers (LM:=square_libm) (mk_world g [])
              = Some (tt, mk_world g fixed_calls))
    by (vm_compute; reflexivity).
  rewrite (Ho g []) in E. rewrite (Ho g cs).
  destruct o as [[[] more]|]; [|discriminate].
  cbn [app] in E. now injection E as ->.
Qed.

Lemma fixed_calls_valid : forallb colours_valid fixed_calls = true.
Proof. vm_compute. reflexivity. Qed.

Lemma fixed_calls_length : length fixed_calls = 650%nat.
Proof. vm_compute. reflexivity. Qed.

Lemma render_defined {RA : Rasterizer} (ops : list draw_op)
    (im : image rgba) :
  forallb colours_valid ops = true -> render ops im <> None.
Proof.
  revert im. induction ops as [|op ops IH]; intros im Hall; cbn [render];
    [discriminate|].
  cbn [forallb] in Hall. apply andb_prop in Hall. destruct Hall as [Hop Hall].
  assert (Hink : forall c, valid_rgba c = true -> draw_ink c <> None).
  { intros c Hc. unfold valid_rgba in Hc.
    destruct c as [|r [|g0 [|b [|a [|? ?]]]]]; discriminate. }
  assert (Hop' : render_op op im <> None).
  { destruct op as [xy fill outline width|pts fill|pts fill width];
      cbn [render_op colours_valid] in *.
    - apply andb_prop in Hop. destruct Hop as [Hf Ho].
      assert (Hg : getink outline fill <> None).
      { unfold getink.
        destruct outline as [oc|], fill as [fc|]; cbn [valid_rgba_opt] in *;
          try discriminate.
        - destruct (draw_ink oc) eqn:E1; [|now apply Hink in Ho].
          destruct (draw_ink fc) eqn:E2; [|now apply Hink in Hf].
          discriminate.
        - destruct (draw_ink oc) eqn:E1; [|now apply Hink in Ho].
          discriminate.
        - destruct (draw_ink fc) eqn:E2; [|now apply Hink in Hf].
          discriminate. }
      destruct (getink outline fill) as [[ink fill_ink]|]; [|congruence].
      destruct (ink_eqb ink fill_ink || (width =? 0)); discriminate.
    - destruct (draw_ink fill) eqn:E; [discriminate|now apply Hink in Hop].
    - destruct (draw_ink fill) eqn:E; [discriminate|now apply Hink in Hop]. }
  destruct (render_op op im) as [im1|]; [|congruence].
  now apply IH.
Qed.

Lemma particle_call_valid (px py sz al : Z) :
  15 <= al <= 45 -> colours_valid (particle_call px py sz al) = true.
Proof.
  intros Hal.
  unfold particle_call. cbn [colours_valid valid_rgba_opt valid_rgba forallb].
  rewrite !andb_true_r.
  replace (0 <=? al) with true by (symmetry; apply Z.leb_le; lia).
  replace (al <=? 255) with true by (symmetry; apply Z.leb_le; lia).
  reflexivity.
Qed.

Section Completion.

Context {G : Type} {RNG : Random G} {LM : Libm}.

Hypothesis pow_ok : pow_squares_bases.
Hypothesis choice_ok : choice_lawful.
Hypothesis randint_ok : randint_lawful.
Hypothesis polar_ok : polar_defined.

Lemma particles_valid (l : list Z) (w : world G) :
  exists ops g',
    for_each l (fun _ => particle) w
      = Some (tt, mk_world g' (w_calls w ++ ops)) /\
    length ops = length l /\
    forallb colours_valid ops = true.
Proof.
  revert w. induction l as [|i l IH]; intros w.
  - exists [], (w_rng w). split; [|split; reflexivity].
    cbn [for_each]. unfold ret. rewrite app_nil_r. now destruct w.
  - destruct (particle_runs choice_ok randint_ok polar_ok w)
      as (angle & g1 & dist & g2 & c & s & px & py & sz & g3 & al & g4
          & _ & _ & _ & _ & _ & _ & _ & _ & _ & Halpha & Hp).
    destruct (IH (mk_world g4 (w_calls w ++ [particle_call px py sz al])))
      as (ops & g' & Hl & Hn & Hv).
    exists (particle_call px py sz al :: ops), g'. split; [|split].
    + cbn [for_each]. unfold bind. rewrite Hp, Hl. cbn [w_calls].
      now rewrite <- app_assoc.
    + cbn [length]. now rewrite Hn.
    + cbn [forallb]. now rewrite (particle_call_valid _ _ _ _ Halpha), Hv.
Qed.

Lemma script_run (g : G) :
  exists ops g',
    script (mk_world g [])
    = Some (tt,
            mk_world g'
              (fixed_calls
               ++ Ellipse [34; 34; 990; 990] None (Some [212; 168; 83; 40]) 1
               :: ops)) /\
    length ops = 25%nat /\
    forallb colours_valid ops = true.
Proof.
  destruct (particles_valid
              (map (fun k => 0 + Z.of_nat k * 1) (seq 0 25))
              (mk_world (rng_seed 42)
                 (fixed_calls
                  ++ [Ellipse [34; 34; 990; 990] None
                              (Some [212; 168; 83; 40]) 1])))
    as (ops & g' & Hrun & Hn & Hv).
  exists ops, g'. split; [|split; [|exact Hv]].
  - unfold script, layer_framing, bind at 1, random_seed.
    cbn [w_calls]. unfold bind at 1.
    rewrite (fixed_layers_square pow_ok), fixed_layers_square_run.
    cbn [app]. unfold bind at 1, ring, emit.
    cbn [accepts_inks getink draw_ink option_map w_rng w_calls].
    change (CX - 478) with 34. change (CY - 478) with 34.
    change (CX + 478) with 990. change (CY + 478) with 990.
    unfold ambient_particles, for_range.
    change (Py.range 0 25 1)
      with (Some (map (fun k => 0 + Z.of_nat k * 1) (seq 0 25))).
    unfold bind at 1. cbn [lift].
    rewrite Hrun. cbn [w_calls]. now rewrite <- app_assoc.
  - rewrite Hn, length_map, length_seq. reflexivity.
Qed.

End Completion.

(** X10. With a C library whose [pow] squares exactly the 285 numbers the
    glow loops pass it and whose [cos] and [sin] give finite polar points,
    and a generator whose [choice] and [randint] return members, the script
    raises nowhere before its SAVE section: it makes exactly 676 calls on
    the canvas (650 for layers 1 to 10, the outer ring, 25 particles), every
    colour it passes is a four-channel colour within 0..255, so that nothing
    is clipped or refused, and with any rasteriser the canvas is drawn and
    measures 1024 by 1024.  The SAVE section then writes two different
    files, the second at the first path with [.png] turned into
    [-rgba.png], and it completes exactly when both paths can be written:
    the run raises when either save fails. *)
Theorem script_runs_to_completion {G : Type} {RNG : Random G} {LM : Libm}
    (Hpow : pow_squares_bases) (Hchoice : choice_lawful)
    (Hrandint : randint_lawful) (Hpolar : polar_defined) (g : G) :
  (exists calls,
     calls_of script g = Some calls /\
     length calls = 676%nat /\
     Forall (fun op => colours_valid op = true) calls /\
     forall RA : Rasterizer,
       exists img,
         render calls (mk_image 1024 1024 (fun _ _ => mk_rgba 10 10 13 255))
         = Some img /\
         canvas g = Some img /\
         im_size img = (1024, 1024)) /\
  rgba_path
  = "/Users/vivienmartin/Desktop/hora 2/claude/mascot-hora-rgba.png"%string /\
  rgba_path <> output_path /\
  forall (RA : Rasterizer) (FS : FileSystem),
    (fs_writable output_path = true -> fs_writable rgba_path = true ->
     exists out_rgb out_rgba, main g = Some (out_rgb, out_rgba)) /\
    (fs_writable output_path = false \/ fs_writable rgba_path = false ->
     main g = None).
Proof.
  destruct (script_run Hpow Hchoice Hrandint Hpolar g)
    as (ops & g' & Hrun & Hn & Hv).
  assert (Hcalls : calls_of script g
                   = Some (fixed_calls
                           ++ Ellipse [34; 34; 990; 990] None
                                      (Some [212; 168; 83; 40]) 1 :: ops))
    by (unfold calls_of; now rewrite Hrun).
  assert (Hvalid : forallb colours_valid
                     (fixed_calls
                      ++ Ellipse [34; 34; 990; 990] None
                                 (Some [212; 168; 83; 40]) 1 :: ops) = true).
  { rewrite forallb_app, fixed_calls_valid. cbn [forallb andb].
    change (colours_valid
              (Ellipse [34; 34; 990; 990] None (Some [212; 168; 83; 40]) 1))
      with true.
    cbn [andb]. exact Hv. }
  assert (Hcanvas : forall RA : Rasterizer,
            exists img,
              render (fixed_calls
                      ++ Ellipse [34; 34; 990; 990] None
                                 (Some [212; 168; 83; 40]) 1 :: ops)
                     (mk_image 1024 1024 (fun _ _ => mk_rgba 10 10 13 255))
              = Some img /\
              canvas g = Some img /\ im_size img = (1024, 1024)).
  { intros RA. unfold canvas. rewrite Hcalls.
    change (Image_new SIZE SIZE BG_DARK)
      with (Some (mk_image 1024 1024 (fun _ _ => mk_rgba 10 10 13 255))).
    cbn [obind].
    destruct (render _ _) as [img|] eqn:Hr;
      [|now apply render_defined in Hr].
    exists img. split; [reflexivity|]. split; [reflexivity|].
    exact (render_size _ _ _ Hr). }
  split; [|split; [reflexivity|split; [discriminate|]]].
  - eexists. split; [exact Hcalls|]. split; [|split].
    + rewrite length_app, fixed_calls_length. cbn [length]. now rewrite Hn.
    + apply Forall_forall. intros op Hop.
      rewrite forallb_forall in Hvalid. now apply Hvalid.
    + exact Hcanvas.
  - intros RA FS. destruct (Hcanvas RA) as (img & _ & Hc & Hsize).
    unfold main. rewrite Hc. cbn [obind]. unfold save_outputs.
    change (Image_new SIZE SIZE BG_DARK)
      with (Some (mk_image 1024 1024 (fun _ _ => mk_rgba 10 10 13 255))).
    cbn [obind]. unfold alpha_composite.
    unfold im_size in Hsize. cbn [im_width im_height].
    injection Hsize as -> ->. cbn [Z.eqb Pos.eqb andb obind].
    unfold Image_save. split.
    + intros -> ->. cbn [obind]. do 2 eexists. reflexivity.
    + intros [Hfirst|Hsecond].
      * now rewrite Hfirst.
      * rewrite Hsecond. now destruct (fs_writable output_path).
Qed.

Lemma square_pow_squares_bases : pow_squares_bases (LM:=square_libm).
Proof. apply Forall_forall. intros x _. reflexivity. Qed.

Lemma script_runs_to_completion_witness :
  (exists calls,
     calls_of (script (RNG:=lcg_uniform_random) (LM:=square_libm)) 7
     = Some calls /\
     length calls = 676%nat) /\
  (exists out_rgb out_rgba,
     main (RNG:=lcg_uniform_random) (LM:=square_libm) (RA:=box_rasterizer)
          (FS:=open_files) 7
     = Some (out_rgb, out_rgba)) /\
  main (RNG:=lcg_uniform_random) (LM:=square_libm) (RA:=box_rasterizer)
       (FS:=first_file_only) 7
  = None.
Proof.
  destruct (script_runs_to_completion
              (RNG:=lcg_uniform_random) (LM:=square_libm)
              square_pow_squares_bases lcg_uniform_choice_lawful
              lcg_uniform_randint_lawful lcg_uniform_polar_defined 7)
    as ((calls & Hrun & Hn & _) & _ & _ & Hsave).
  split; [exists calls; split; [exact Hrun|exact Hn]|].
  split.
  - exact (proj1 (Hsave box_rasterizer open_files) eq_refl eq_refl).
  - exact (proj2 (Hsave box_rasterizer first_file_only)
                 (or_intror eq_refl)).
Defined.

(** ** The two glows *)

(** X9. Both glows follow their [(1 - t) ** 2] falloff, disc by disc, when
    the C library's [pow] squares exactly the 285 numbers the two loops pass
    it.  The background glow is 220 discs around (512, 492), of radius 440
    down to 2 in steps of 2 and drawn largest first, in (180, 140, 60) with
    alpha the floor of [25 * (440 - r)^2 / 440^2]; the one exception is
    radius 352, where that number is exactly 1 and binary64 gives 0.  The
    chest glow is 65 discs around (512, 609), of radius 130 down to 2, in
    (212, 168, 83) with alpha the floor of [12 * (130 - r)^2 / 130^2] at
    every radius.  So the alpha is 0 on the largest disc, never decreases
    toward the centre, is a quarter of the factor at half the radius (6 of
    25) and ends on 24 and 11. *)
Theorem glows_fall_off {G : Type} {LM : Libm} (Hpow : pow_squares_bases)
    (g : G) :
  calls_of layer_background g
  = Some (map (fun r => disc_call CX (CY - 20) r
                                  [180; 140; 60; background_alpha r])
              (glow_radii 440)) /\
  calls_of chest_glow g
  = Some (map (fun r => disc_call CX (chest_mid - 10) r
                                  [212; 168; 83; chest_alpha r])
              (glow_radii 130)) /\
  glow_radii 440 = map (fun k => 440 - 2 * Z.of_nat k) (seq 0 220) /\
  glow_radii 130 = map (fun k => 130 - 2 * Z.of_nat k) (seq 0 65) /\
  (forall r, In r (glow_radii 440) ->
     r <> 352 -> background_alpha r = 25 * (440 - r) ^ 2 / 440 ^ 2) /\
  (background_alpha 352 = 0 /\ 25 * (440 - 352) ^ 2 / 440 ^ 2 = 1) /\
  (forall r, chest_alpha r = 12 * (130 - r) ^ 2 / 130 ^ 2) /\
  non_decreasing (map background_alpha (glow_radii 440)) = true /\
  non_decreasing (map chest_alpha (glow_radii 130)) = true /\
  (background_alpha 440 = 0 /\ background_alpha 220 = 6 /\
   background_alpha 2 = 24) /\
  (chest_alpha 130 = 0 /\ chest_alpha 2 = 11).
Proof.
  split; [|split].
  - unfold calls_of. rewrite (layer_background_square Hpow).
    vm_compute. reflexivity.
  - unfold calls_of. rewrite (chest_glow_square Hpow).
    vm_compute. reflexivity.
  - split; [vm_compute; reflexivity|]. split; [vm_compute; reflexivity|].
    split.
    { intros r _ Hr. unfold background_alpha, falloff_exact.
      now replace (r =? 352) with false by (symmetry; apply Z.eqb_neq; lia). }
    split; [split; reflexivity|]. split; [reflexivity|].
    split; [vm_compute; reflexivity|]. split; [vm_compute; reflexivity|].
    split; repeat split; reflexivity.
Qed.

Lemma glows_fall_off_witness :
  calls_of (chest_glow (LM:=square_libm)) tt
  = Some (map (fun r => disc_call CX (chest_mid - 10) r
                                  [212; 168; 83; chest_alpha r])
              (glow_radii 130)) /\
  hd_error (glow_radii 130) = Some 130 /\
  chest_alpha 130 = 0 /\ chest_alpha 2 = 11.
Proof.
  destruct (glows_fall_off (G:=unit) (LM:=square_libm)
              square_pow_squares_bases tt)
    as (_ & Hchest & _ & Hradii & _ & _ & _ & _ & _ & _ & Hends).
  split; [exact Hchest|]. split; [now rewrite Hradii|exact Hends].
Defined.

(** ** The eyes *)

(** Proves [iris_gradient] on an explicit call list by evaluation. *)
Ltac iris_by_evaluation :=
  lazymatch goal with
  | |- iris_gradient _ ?discs =>
      let r := eval vm_compute in (Py.range 30 0 (-1)) in
      let c := eval vm_compute in (mapM disc_colour discs) in
      lazymatch r with
      | Some ?radii =>
          lazymatch c with
          | Some ?colours =>
              exists radii, colours;
              repeat (split; [vm_compute; reflexivity|]);
              vm_compute; reflexivity
          end
      end
  end.

(** X8. The eye layer makes 72 calls, 36 per eye, and the iris of each eye
    is the gradient its comment describes, bright inside and dark outside:
    thirty discs around the eye centre, of radius 30 down to 1 and drawn
    largest first, whose colours start exactly on [GOLD_DARK], are opaque,
    stay between [GOLD_DARK] and [GOLD_LIGHT] on every channel, never get
    darker toward the centre, and end on (239, 209, 149, 255), one short of
    [GOLD_LIGHT] because [int()] truncates. *)
Theorem iris_is_a_gradient {G : Type} (g : G) :
  exists calls,
    calls_of layer_eyes g = Some calls /\
    length calls = 72%nat /\
    iris_gradient (CX - EYE_SPACING) (iris_calls 0 calls) /\
    iris_gradient (CX + EYE_SPACING) (iris_calls 1 calls).
Proof.
  let c := eval vm_compute in (calls_of (layer_eyes (G:=G)) g) in
  lazymatch c with Some ?l => exists l end.
  split; [vm_compute; reflexivity|]. split; [reflexivity|].
  split; iris_by_evaluation.
Qed.

(** ** The decorative graphs as graphs *)

(** Finds a pair in an explicit list. *)
Ltac in_list := repeat first [left; reflexivity | right].

(** Extends reachability by one connection from a reached node. *)
Ltac reach a :=
  apply (reachable_step _ a); [assumption | in_list].

Lemma chest_nodes_reachable :
  Forall (reachable conns) (map Z.of_nat (seq 0 17)).
Proof.
  assert (H0 : reachable conns 0) by constructor.
  assert (H1 : reachable conns 1) by reach 0.
  assert (H2 : reachable conns 2) by reach 0.
  assert (H3 : reachable conns 3) by reach 0.
  assert (H4 : reachable conns 4) by reach 1.
  assert (H5 : reachable conns 5) by reach 1.
  assert (H6 : reachable conns 6) by reach 2.
  assert (H7 : reachable conns 7) by reach 2.
  assert (H8 : reachable conns 8) by reach 4.
  assert (H9 : reachable conns 9) by reach 4.
  assert (H10 : reachable conns 10) by reach 5.
  assert (H11 : reachable conns 11) by reach 6.
  assert (H12 : reachable conns 12) by reach 7.
  assert (H13 : reachable conns 13) by reach 8.
  assert (H14 : reachable conns 14) by reach 9.
  assert (H15 : reachable conns 15) by reach 10.
  assert (H16 : reachable conns 16) by reach 11.
  repeat (constructor; [assumption|]). constructor.
Qed.

Lemma head_nodes_reachable :
  Forall (reachable h_conns) (map Z.of_nat (seq 0 8)).
Proof.
  assert (H0 : reachable h_conns 0) by constructor.
  assert (H1 : reachable h_conns 1) by reach 0.
  assert (H2 : reachable h_conns 2) by reach 0.
  assert (H3 : reachable h_conns 3) by reach 1.
  assert (H4 : reachable h_conns 4) by reach 1.
  assert (H5 : reachable h_conns 5) by reach 2.
  assert (H6 : reachable h_conns 6) by reach 2.
  assert (H7 : reachable h_conns 7) by reach 4.
  repeat (constructor; [assumption|]). constructor.
Qed.

Lemma pairs_NoDup (l : list (Z * Z)) :
  forallb (fun i =>
    forallb (fun j =>
      Nat.eqb i j
      || negb (point_eqb (nth i l (0, 0)) (nth j l (0, 0))))
      (seq 0 (length l))) (seq 0 (length l)) = true ->
  NoDup l.
Proof.
  intros Hall. apply (NoDup_nth l (0, 0)). intros i j Hi Hj Heq.
  rewrite forallb_forall in Hall.
  specialize (Hall i (proj2 (in_seq _ _ _) (conj (Nat.le_0_l i) Hi))).
  rewrite forallb_forall in Hall.
  specialize (Hall j (proj2 (in_seq _ _ _) (conj (Nat.le_0_l j) Hj))).
  rewrite Heq in Hall. unfold point_eqb in Hall.
  rewrite !Z.eqb_refl in Hall. cbn [andb negb] in Hall.
  rewrite orb_false_r in Hall. now apply Nat.eqb_eq.
Qed.

(** X11. Both decorative graphs hang together as the comments on [conns]
    lay them out.  Every chest node and every head node can be reached from
    node 0 along connections followed from first to second index; no
    connection is listed twice and each joins a lower index to a higher
    one; the first 25 chest connections each lead from one layer of the
    node loop to the next, and the last 11 stay within a layer. *)
Theorem patterns_hang_together :
  Forall (reachable conns) (map Z.of_nat (seq 0 17)) /\
  Forall (reachable h_conns) (map Z.of_nat (seq 0 8)) /\
  NoDup conns /\ NoDup h_conns /\
  Forall (fun ab => fst ab < snd ab) (conns ++ h_conns) /\
  Forall (fun ab => node_layer (snd ab) = node_layer (fst ab) + 1)
         (firstn 25 conns) /\
  Forall (fun ab => node_layer (snd ab) = node_layer (fst ab))
         (skipn 25 conns) /\
  length (skipn 25 conns) = 11%nat.
Proof.
  split; [exact chest_nodes_reachable|].
  split; [exact head_nodes_reachable|].
  split; [apply pairs_NoDup; vm_compute; reflexivity|].
  split; [apply pairs_NoDup; vm_compute; reflexivity|].
  split; [repeat constructor|].
  split; [repeat constructor|].
  split; [repeat constructor|reflexivity].
Qed.
